(** * Chunked upload of the CodecFake audio files

    A shallow embedding of the notebook
    [notebooks/data_ingestion/codecfake_upload_to_huggingface.ipynb]:
    the directory scan [create_df], the divisor search
    [find_best_chunk_size] and the chunk creation loop with [save_chunk].

    Python integers are [Z], the [set] of audio ids is a [gset string],
    and a raised exception is the [Raise] branch of [result]. A Python
    [str] is the [string] of the bytes of its UTF-8 encoding, so a
    character may take several bytes. The calls into [os.path], pandas
    and [datasets] are modelled by what they return on the values the
    notebook passes. *)

From Stdlib Require Import ZArith Lia.
From stdpp Require Import gmap strings list sorting pretty.

Open Scope string_scope.
Open Scope list_scope.

(** ** Exceptions and fallible results *)

(** The exceptions the notebook can end with. [CastError] is the one of
    [datasets.table], a [ValueError] of its own class; no [except] of the
    notebook is in reach of it. *)
Inductive exn : Type :=
  | ValueError (msg : string)
  | ZeroDivisionError
  | KeyError (key : string)
  | CastError.

Inductive result (A : Type) : Type :=
  | Ok (a : A)
  | Raise (e : exn).
Arguments Ok {A} a.
Arguments Raise {A} e.

Global Instance result_ret : MRet result := λ A a, Ok a.

Global Instance result_bind : MBind result := λ A B k r,
  match r with
  | Ok a => k a
  | Raise e => Raise e
  end.

(** ** Python string methods used by the notebook *)

Module Py.

(** The POSIX path separator. *)
Definition sep : Ascii.ascii := Ascii.ascii_of_nat 47.

(** [s.startswith(p)] *)
Definition startswith (s p : string) : bool := String.prefix p s.

(** [s.endswith(p)] *)
Definition endswith (s p : string) : bool :=
  bool_decide (String.length p ≤ String.length s)%nat &&
  String.eqb
    (String.substring (String.length s - String.length p) (String.length p) s) p.

(** A byte that continues a character of the encoded string: [10xxxxxx]. *)
Definition is_continuation (c : Ascii.ascii) : bool :=
  match c with
  | Ascii.Ascii _ _ _ _ _ _ b6 b7 => b7 && negb b6
  end.

(** [len(s)]: the number of characters, one for every byte that starts
    one. *)
Fixpoint len (s : string) : nat :=
  match s with
  | EmptyString => 0
  | String c s' => if is_continuation c then len s' else S (len s')
  end.

(** [s[:n]] for a number [n] of characters: the bytes of the first [n]
    characters of a well-formed encoding, each with the bytes that
    continue it. *)
Fixpoint chars_to (s : string) (n : nat) : string :=
  match s with
  | EmptyString => EmptyString
  | String c s' =>
      if is_continuation c then String c (chars_to s' n)
      else match n with
           | O => EmptyString
           | S n' => String c (chars_to s' n')
           end
  end.

(** [s[:i]] and [s[i:]] for a position [i] that [rfind] returned: the
    position just after a separator, a one-byte character, counted in the
    bytes of the encoded string as [after_last_sep] below counts it. *)
Definition slice_to (s : string) (n : nat) : string := String.substring 0 n s.

Definition slice_from (s : string) (n : nat) : string :=
  String.substring n (String.length s - n) s.

(** [s.rfind("/") + 1]: the position just after the last separator, [0]
    when there is none. *)
Fixpoint after_last_sep (s : string) : nat :=
  match s with
  | EmptyString => 0
  | String c s' =>
      match after_last_sep s' with
      | S i => S (S i)
      | O => if Ascii.eqb c sep then 1 else 0
      end
  end.

(** [s.lstrip("/")] and [s.rstrip("/")] *)
Fixpoint lstrip_sep (s : string) : string :=
  match s with
  | String c s' => if Ascii.eqb c sep then lstrip_sep s' else s
  | EmptyString => EmptyString
  end.

Definition rstrip_sep (s : string) : string :=
  String.rev (lstrip_sep (String.rev s)).

(** [a % b] on integers: floor modulo, [ZeroDivisionError] on [b = 0]. *)
Definition mod_ (a b : Z) : result Z :=
  if (b =? 0)%Z then Raise ZeroDivisionError else Ok (a mod b)%Z.

(** [a // b] on integers: floor division, [ZeroDivisionError] on [b = 0]. *)
Definition floordiv (a b : Z) : result Z :=
  if (b =? 0)%Z then Raise ZeroDivisionError else Ok (a `div` b)%Z.

(** [range(start, stop, -1)] *)
Definition range_down (start stop : Z) : list Z :=
  (λ i : nat, (start - Z.of_nat i)%Z) <$> seq 0 (Z.to_nat (start - stop)).

End Py.

(** ** [os.path] on POSIX *)

Module PosixPath.

(** [os.path.join(a, b)] *)
Definition join (a b : string) : string :=
  if Py.startswith b "/" then b
  else if String.eqb a "" || Py.endswith a "/" then a +:+ b
  else a +:+ "/" +:+ b.

(** [os.path.basename(p)] *)
Definition basename (p : string) : string :=
  Py.slice_from p (Py.after_last_sep p).

(** [os.path.dirname(p)]: the head up to the last separator, with the
    trailing separators removed unless the head consists of separators
    only. *)
Definition dirname (p : string) : string :=
  let head := Py.slice_to p (Py.after_last_sep p) in
  if String.eqb (Py.lstrip_sep head) "" then head else Py.rstrip_sep head.

End PosixPath.

(** ** The data frame built by [create_df] *)

(** One record appended to [data]: [{"audio": file_path, "audio_id":
    audio_id, "real_or_fake": real_or_fake}]. *)
Record Row : Type := mkRow {
  audio : string;
  audio_id : string;
  real_or_fake : string
}.

Global Instance Row_eq_dec : EqDecision Row.
Proof. solve_decision. Defined.

(** [pd.DataFrame(data)] is the list of its records; the empty list is the
    frame [pd.DataFrame([])], which has no columns at all. *)
Abbreviation DataFrame := (list Row).

(** [os.walk(audio_dir)] yields [(root, dirs, files)]; [create_df] ignores
    [dirs]. *)
Abbreviation Walk := (list (string * list string)).

(** The state threaded through the two nested loops of [create_df]: the
    list [data] and the lines printed so far. *)
Record ScanState : Type := mkScan {
  data : list Row;
  printed : list string
}.

(** The body of [for file in files]. *)
Definition scan_file (root : string) (st : ScanState) (file : string) : ScanState :=
  if Py.endswith file ".flac" then
    let file_path := PosixPath.join root file in
    let audio_id := PosixPath.basename (PosixPath.dirname file_path) in
    if Py.startswith audio_id "SSB" then
      mkScan (data st) (printed st ++ ["Skipping " +:+ audio_id])
    else
      let real_or_fake :=
        if Py.startswith file "F0" then Py.chars_to file 3 else "R" in
      mkScan (data st ++ [mkRow file_path audio_id real_or_fake]) (printed st)
  else st.

(** The body of [for root, _, files in os.walk(audio_dir)]. *)
Definition scan_dir (st : ScanState) (entry : string * list string) : ScanState :=
  foldl (scan_file entry.1) st entry.2.

Definition create_df_run (walk : Walk) : ScanState :=
  foldl scan_dir (mkScan [] []) walk.

Definition create_df (walk : Walk) : DataFrame := data (create_df_run walk).

(** [df[col]] for the column [audio_id]: a frame without columns raises
    [KeyError]. *)
Definition column_audio_id (df : DataFrame) : result (list string) :=
  match df with
  | [] => Raise (KeyError "audio_id")
  | _ => Ok (audio_id <$> df)
  end.

(** [unique_audio_ids = df['audio_id'].nunique()] *)
Definition unique_audio_ids (df : DataFrame) : result Z :=
  ids ← column_audio_id df ;
  Ok (Z.of_nat (size (list_to_set ids : gset string))).

(** ** The divisor search *)

Definition desired_chunk_size_min : Z := 90.
Definition desired_chunk_size_max : Z := 110.

Definition no_suitable_chunk_size : exn :=
  ValueError "No suitable chunk size found within the given range.".

(** The [for size in ...] loop of [find_best_chunk_size] over the remaining
    candidates, with its early [return]. *)
Fixpoint first_divisor (total_ids : Z) (sizes : list Z) : result Z :=
  match sizes with
  | [] => Raise no_suitable_chunk_size
  | size :: rest =>
      r ← Py.mod_ total_ids size ;
      if (r =? 0)%Z then Ok size else first_divisor total_ids rest
  end.

Definition find_best_chunk_size (total_ids min_size max_size : Z) : result Z :=
  first_divisor total_ids (Py.range_down max_size (min_size - 1)).

(** [num_chunks = unique_audio_ids // chunk_size] *)
Definition num_chunks (unique_audio_ids chunk_size : Z) : Z :=
  (unique_audio_ids `div` chunk_size)%Z.

(** What the cell around [find_best_chunk_size] leaves behind: the
    variables [chunk_size] and [num_chunks] when the search succeeds, and
    the line it prints. *)
Record CellResult : Type := mkCell {
  cell_sizes : option (Z * Z);
  cell_printed : string
}.

(** The cell: [try: ... except ValueError as e: print(e)]. The search runs
    with the two bounds of the notebook; a [ValueError] is caught and its
    message printed, any other exception leaves the cell. *)
Definition chunk_size_cell (unique_audio_ids : Z) : result CellResult :=
  match find_best_chunk_size unique_audio_ids
          desired_chunk_size_min desired_chunk_size_max with
  | Ok chunk_size =>
      num_chunks ← Py.floordiv unique_audio_ids chunk_size ;
      Ok (mkCell (Some (chunk_size, num_chunks))
            ("Chunk Size: " +:+ pretty chunk_size +:+
             ", Number of Chunks: " +:+ pretty num_chunks))
  | Raise (ValueError msg) => Ok (mkCell None msg)
  | Raise e => Raise e
  end.

(** ** Grouping and the chunk creation loop *)

(** [df.copy().groupby('audio_id')], iterated: pandas sorts the group keys
    ([sort=True] is the default), every group keeps its rows in frame
    order. The keys are compared as Python compares [str] values,
    character by character, which [String.le] does on the encoded
    string. *)
Definition groupby_audio_id (df : DataFrame) : result (list (string * list Row)) :=
  ids ← column_audio_id df ;
  Ok ((λ k, (k, filter (λ r, audio_id r = k) df))
        <$> merge_sort String.le (remove_dups ids)).

(** A chunk handed to the hub client: the records that
    [Dataset.from_pandas] repackaged. *)
Abbreviation Dataset := (list Row).

Record LoopState : Type := mkLoop {
  chunk_index : nat;
  datasets : list (string * Dataset);
  current_chunk : list Row;
  audio_ids_so_far : gset string
}.

Definition chunk_name (chunk_index : nat) : string :=
  "partition" +:+ pretty chunk_index.

(** [ds_chunk.cast_column("audio", Audio(decode=True))] on the dataset of
    [pd.DataFrame(chunk_data)]. A frame built from an empty list has no
    column, so the dataset has no [audio] column to cast: the releases 2.x
    of [datasets] raise [CastError], a subclass of [ValueError], which is
    the behaviour modelled here (the releases 3.x return the empty dataset
    unchanged). With records the cast keeps them. *)
Definition cast_column_audio (chunk_data : list Row) : result Dataset :=
  match chunk_data with
  | [] => Raise CastError
  | _ => Ok chunk_data
  end.

(** [save_chunk(chunk_data, chunk_index)]: appends to the global
    [datasets] once the cast went through. *)
Definition save_chunk (chunk_data : list Row) (chunk_index : nat)
    (datasets : list (string * Dataset)) : result (list (string * Dataset)) :=
  ds_chunk ← cast_column_audio chunk_data ;
  Ok (datasets ++ [(chunk_name chunk_index, ds_chunk)]).

(** A [for] loop whose body may raise: the first exception ends it. *)
Fixpoint for_each {S A : Type} (body : S → A → result S) (st : S)
    (xs : list A) : result S :=
  match xs with
  | [] => Ok st
  | x :: xs' => st' ← body st x ; for_each body st' xs'
  end.

(** The body of [for audio_id, group in grouped]. *)
Definition loop_body (chunk_size : Z) (st : LoopState)
    (g : string * list Row) : result LoopState :=
  if decide (g.1 ∈ audio_ids_so_far st) then Ok st
  else
    st1 ← (if (Z.of_nat (size (audio_ids_so_far st)) + 1 >? chunk_size)%Z then
             datasets' ← save_chunk (current_chunk st) (chunk_index st)
                                    (datasets st) ;
             Ok (mkLoop (S (chunk_index st)) datasets' [] ∅)
           else Ok st) ;
    Ok (mkLoop (chunk_index st1) (datasets st1)
               (current_chunk st1 ++ g.2)
               ({[ g.1 ]} ∪ audio_ids_so_far st1)).

Definition loop_init : LoopState := mkLoop 0 [] [] ∅.

(** After the loop: [if current_chunk: save_chunk(...)]. *)
Definition loop_finish (st : LoopState) : result (list (string * Dataset)) :=
  match current_chunk st with
  | [] => Ok (datasets st)
  | _ => save_chunk (current_chunk st) (chunk_index st) (datasets st)
  end.

(** The whole cell: group, iterate, save the trailing chunk. The result is
    the list [datasets] from which [DatasetDict] is built. *)
Definition chunk_creation_loop (df : DataFrame) (chunk_size : Z)
    : result (list (string * Dataset)) :=
  grouped ← groupby_audio_id df ;
  st ← for_each (loop_body chunk_size) loop_init grouped ;
  loop_finish st.

(** The notebook from the scanned directory to the plan. *)
Definition partition_plan (walk : Walk) (chunk_size : Z)
    : result (list (string * Dataset)) :=
  chunk_creation_loop (create_df walk) chunk_size.

(** [DatasetDict({chunk_name: ds for chunk_name, ds in datasets})]: the
    comprehension stores the pairs one after the other, a later pair
    replacing an earlier one of the same name. *)
Definition dataset_dict (datasets : list (string * Dataset)) : gmap string Dataset :=
  foldl (λ d entry, <[entry.1 := entry.2]> d) ∅ datasets.

(** The state of the chunk creation loop after its first [i] iterations. *)
Definition loop_state_after (df : DataFrame) (chunk_size : Z) (i : nat)
    : result LoopState :=
  grouped ← groupby_audio_id df ;
  for_each (loop_body chunk_size) loop_init (take i grouped).

(** * Vocabulary of the statements *)

(** ** Divisors in a range *)

(** [d] is a candidate of the range [[min_size, max_size]] that evenly
    divides [total_ids]. *)
Definition divisor_in_range (total_ids min_size max_size d : Z) : Prop :=
  (min_size ≤ d ≤ max_size)%Z ∧ (d | total_ids)%Z.

Definition largest_divisor_in_range (total_ids min_size max_size d : Z) : Prop :=
  divisor_in_range total_ids min_size max_size d ∧
  ∀ d', divisor_in_range total_ids min_size max_size d' → (d' ≤ d)%Z.

(** ** Items, groups and chunks *)

(** The group ids present in a collection of rows. *)
Definition chunk_ids (rows : list Row) : gset string :=
  list_to_set (audio_id <$> rows).

(** The number of distinct group ids of a collection of rows. *)
Definition group_count (rows : list Row) : nat := size (chunk_ids rows).

(** The chunks of a plan cover the group ids [ids], each once: the union
    of their group ids is [ids], and no id lies in two chunks. *)
Definition covers_once (plan : list (string * Dataset)) (ids : gset string) : Prop :=
  ⋃ ((λ p, chunk_ids p.2) <$> plan) = ids ∧
  ∀ i j pi pj, plan !! i = Some pi → plan !! j = Some pj → i ≠ j →
               chunk_ids pi.2 ## chunk_ids pj.2.

(** Every chunk but the last holds exactly [chunk_size] distinct group
    ids, and the last holds fewer only when [chunk_size] does not divide
    the number [total] of groups. *)
Definition full_chunks (plan : list (string * Dataset)) (chunk_size : Z)
    (total : nat) : Prop :=
  (∀ i p, plan !! i = Some p → S i < length plan →
          Z.of_nat (group_count p.2) = chunk_size) ∧
  (∀ p, last plan = Some p →
        (Z.of_nat (group_count p.2) < chunk_size)%Z →
        ¬ (chunk_size | Z.of_nat total)%Z).

(** The ids of a list in the order each is met for the first time. *)
Fixpoint first_encounter_from (seen : list string) (ids : list string) : list string :=
  match ids with
  | [] => []
  | id :: ids' =>
      if decide (id ∈ seen) then first_encounter_from seen ids'
      else id :: first_encounter_from (id :: seen) ids'
  end.

Definition first_encounter (ids : list string) : list string :=
  first_encounter_from [] ids.

(** The order in which the groups lie across the chunks of a plan. *)
Definition plan_group_order (plan : list (string * Dataset)) : list string :=
  first_encounter (audio_id <$> mjoin plan.*2).

(** The group keys as pandas iterates them. *)
Definition sorted_ids (df : DataFrame) : list string :=
  merge_sort String.le (remove_dups (audio_id <$> df)).

(** The [.flac] files of a scan with the directory they lie in, in scan
    order: the candidate items. *)
Definition flac_files (walk : Walk) : list (string * string) :=
  '(root, files) ← walk ;
  (λ file, (root, file)) <$> filter (λ file, Py.endswith file ".flac" = true) files.

(** The group id [create_df] derives for a file of directory [root]. *)
Definition audio_id_of (item : string * string) : string :=
  PosixPath.basename (PosixPath.dirname (PosixPath.join item.1 item.2)).

(** The exclusion rule of the scan. *)
Definition excluded (id : string) : Prop := Py.startswith id "SSB" = true.

Global Instance excluded_dec id : Decision (excluded id).
Proof. unfold excluded. apply _. Defined.

(** The string holds whole characters from its first byte on. *)
Definition char_boundary (s : string) : Prop :=
  match s with
  | EmptyString => True
  | String c _ => Py.is_continuation c = false
  end.

(** [l] is the first [n] characters of [s]: a prefix of [n] characters
    after which a character starts or the string ends. *)
Definition first_chars (n : nat) (s l : string) : Prop :=
  ∃ rest, s = l +:+ rest ∧ Py.len l = n ∧ char_boundary rest.

(** The category label the spec derives from a file name: the
    three-character marker of a fake, or ["R"]. *)
Definition label_of_file_name (file : string) : string :=
  if Py.startswith file "F0" then Py.chars_to file 3 else "R".

(** A row of a retained item: its group id is the one derived from its
    path, and the exclusion rule does not match it. *)
Definition retained_row (r : Row) : Prop :=
  audio_id r = PosixPath.basename (PosixPath.dirname (audio r)) ∧
  ¬ excluded (audio_id r).

(** The record [create_df] appends for a retained item. *)
Definition row_of_item (item : string * string) : Row :=
  mkRow (PosixPath.join item.1 item.2) (audio_id_of item)
        (label_of_file_name item.2).

(** The line [create_df] prints for an excluded item. *)
Definition skip_line (item : string * string) : string :=
  "Skipping " +:+ audio_id_of item.

(** The scan restricted to its [.flac] files. *)
Definition flac_only (walk : Walk) : Walk :=
  (λ entry, (entry.1, filter (λ file, Py.endswith file ".flac" = true) entry.2))
    <$> walk.

(** ** The loop seen on whole groups

    The same loop with the state kept as lists of groups: the chunks sealed
    so far and the groups of the open chunk. *)

Abbreviation Group := (string * list Row)%type.

Record GroupState : Type := mkGroups {
  sealed : list (list Group);
  open : list Group
}.

Definition group_step (chunk_size : Z) (gs : GroupState) (g : Group) : GroupState :=
  if (Z.of_nat (length (open gs)) + 1 >? chunk_size)%Z then
    mkGroups (sealed gs ++ [open gs]) [g]
  else mkGroups (sealed gs) (open gs ++ [g]).

Definition group_init : GroupState := mkGroups [] [].

Definition group_run (chunk_size : Z) (grouped : list Group) : GroupState :=
  foldl (group_step chunk_size) group_init grouped.

(** The chunks at the end: the trailing chunk is kept when it holds a
    group. *)
Definition group_chunks (gs : GroupState) : list (list Group) :=
  sealed gs ++ match open gs with [] => [] | _ => [open gs] end.

Definition rows_of (c : list Group) : list Row := mjoin c.*2.

(** The loop state that a state of groups stands for. *)
Definition loop_state_of (gs : GroupState) : LoopState :=
  mkLoop (length (sealed gs))
         (imap (λ i c, (chunk_name i, rows_of c)) (sealed gs))
         (rows_of (open gs))
         (list_to_set (open gs).*1).

(** The plan a list of chunks of groups stands for. *)
Definition plan_of (chunks : list (list Group)) : list (string * Dataset) :=
  imap (λ i c, (chunk_name i, rows_of c)) chunks.

(** A group as [groupby] yields it: not empty, every row carrying the key. *)
Definition well_grouped (g : Group) : Prop :=
  g.2 ≠ [] ∧ Forall (λ r, audio_id r = g.1) g.2.

(** The groups of a frame, in iteration order. *)
Definition groups_of (df : DataFrame) : list Group :=
  (λ k, (k, filter (λ r, audio_id r = k) df)) <$> sorted_ids df.

(** The two ways the chunk creation loop ends without a plan: the frame
    has no row, so no [audio_id] column to group by; or the frame has rows
    and the chunk size is below one, so the first iteration hands the
    still empty chunk to [save_chunk]. *)
Definition loop_raises (df : DataFrame) (chunk_size : Z) (e : exn) : Prop :=
  (e = KeyError "audio_id" ∧ df = []) ∨
  (e = CastError ∧ df ≠ [] ∧ (chunk_size ≤ 0)%Z).

(** ** Paths *)

(** The string holds a path separator. *)
Fixpoint has_sep (s : string) : bool :=
  match s with
  | EmptyString => false
  | String c s' => Ascii.eqb c Py.sep || has_sep s'
  end.

(** The string with the character [c] appended. *)
Definition snoc_char (s : string) (c : Ascii.ascii) : string :=
  s +:+ String c EmptyString.

(** ** Worked inputs *)

(** The scan of the spec's scenario: two fakes of group [A], one real
    recording of group [B]. *)
Definition example_walk : Walk :=
  [("A", ["F01_x.flac"; "F01_y.flac"]); ("B", ["real.flac"])].

(** A scan that meets group [B] before group [A]. *)
Definition unsorted_walk : Walk := [("B", ["b.flac"]); ("A", ["a.flac"])].

(** A scan with one excluded directory and one note beside the audio. *)
Definition excluded_walk : Walk :=
  [("SSB0001", ["a.flac"]); ("p225", ["b.flac"; "notes.txt"])].

(** A scan with file names beyond the one-byte characters. *)
Definition accented_walk : Walk :=
  [("A", ["F0é_1.flac"; "F0.flac"; "é.flac"])].

(** * Properties *)

(** ** The divisor search *)

Section divisor_search.
Local Open Scope Z_scope.

Lemma range_down_nil start stop : start ≤ stop → Py.range_down start stop = [].
Proof.
  intros Hle. unfold Py.range_down.
  replace (Z.to_nat (start - stop)) with 0%nat by lia. done.
Qed.

Lemma range_down_cons start stop :
  stop < start →
  Py.range_down start stop = start :: Py.range_down (start - 1) stop.
Proof.
  intros Hlt. unfold Py.range_down.
  replace (Z.to_nat (start - stop)) with (S (Z.to_nat (start - 1 - stop))) by lia.
  cbn [seq fmap list_fmap]. f_equal; [lia|].
  rewrite <- seq_shift, <- list_fmap_compose.
  apply list_fmap_ext. intros _ i _. simpl. lia.
Qed.

(** What the scan returns, for every input: a divisor below which nothing
    larger divides, or [ZeroDivisionError] when the candidate [0] is
    reached first, or the [ValueError] when the range is exhausted. *)
Lemma first_divisor_range_down total_ids stop (n : nat) : ∀ start,
  n = Z.to_nat (start - stop) →
  match first_divisor total_ids (Py.range_down start stop) with
  | Ok d =>
      stop < d ≤ start ∧ d ≠ 0 ∧ (d | total_ids) ∧
      ∀ d', d < d' ≤ start → d' ≠ 0 ∧ ¬ (d' | total_ids)
  | Raise e =>
      (e = ZeroDivisionError ∧ stop < 0 ≤ start ∧
       ∀ d', 0 < d' ≤ start → ¬ (d' | total_ids)) ∨
      (e = no_suitable_chunk_size ∧
       ∀ d', stop < d' ≤ start → d' ≠ 0 ∧ ¬ (d' | total_ids))
  end.
Proof.
  induction n as [|n IH]; intros start Hn.
  - rewrite range_down_nil by lia. simpl. right. split; [done|]. lia.
  - rewrite range_down_cons by lia. cbn [first_divisor].
    unfold Py.mod_. destruct (Z.eqb_spec start 0) as [->|Hnz]; simpl.
    { left. split; [done|]. split; [lia|]. lia. }
    destruct (Z.eqb_spec (total_ids mod start) 0) as [Hmod|Hmod].
    { apply Z.mod_divide in Hmod; [|done].
      split; [lia|]. split; [done|]. split; [done|]. lia. }
    assert (¬ (start | total_ids)) as Hndiv.
    { intros Hdiv. apply Hmod. by apply Z.mod_divide. }
    specialize (IH (start - 1) ltac:(lia)).
    destruct (first_divisor total_ids (Py.range_down (start - 1) stop)) as [d|e].
    + destruct IH as (Hr & Hd0 & Hdiv & Hmax).
      split; [lia|]. split; [done|]. split; [done|]. intros d' Hd'.
      destruct (decide (d' = start)) as [->|]; [done|]. apply Hmax. lia.
    + destruct IH as [(-> & Hr & Hno)|(-> & Hno)].
      * left. split; [done|]. split; [lia|]. intros d' Hd'.
        destruct (decide (d' = start)) as [->|]; [done|]. apply Hno. lia.
      * right. split; [done|]. intros d' Hd'.
        destruct (decide (d' = start)) as [->|]; [done|]. apply Hno. lia.
Qed.

Lemma find_best_chunk_size_spec total_ids min_size max_size :
  match find_best_chunk_size total_ids min_size max_size with
  | Ok d =>
      min_size ≤ d ≤ max_size ∧ d ≠ 0 ∧ (d | total_ids) ∧
      ∀ d', d < d' ≤ max_size → d' ≠ 0 ∧ ¬ (d' | total_ids)
  | Raise e =>
      (e = ZeroDivisionError ∧ min_size ≤ 0 ≤ max_size ∧
       ∀ d', 0 < d' ≤ max_size → ¬ (d' | total_ids)) ∨
      (e = no_suitable_chunk_size ∧
       ∀ d', min_size ≤ d' ≤ max_size → d' ≠ 0 ∧ ¬ (d' | total_ids))
  end.
Proof.
  unfold find_best_chunk_size.
  pose proof (first_divisor_range_down total_ids (min_size - 1) _ max_size eq_refl) as H.
  destruct (first_divisor _ _) as [d|e].
  - destruct H as (? & ? & ? & ?). split; [lia|]. done.
  - destruct H as [(-> & ? & Hno)|(-> & Hno)].
    + left. split; [done|]. split; [lia|]. done.
    + right. split; [done|]. intros d' ?. apply Hno. lia.
Qed.

(** The candidate [1] divides everything, so the scan meets [0] before any
    divisor exactly when [max_size] is [0] itself. *)
Lemma find_best_chunk_size_zero_division total_ids min_size max_size :
  find_best_chunk_size total_ids min_size max_size = Raise ZeroDivisionError →
  min_size ≤ 0 ∧ max_size = 0.
Proof.
  intros Heq. pose proof (find_best_chunk_size_spec total_ids min_size max_size) as H.
  rewrite Heq in H. destruct H as [(_ & ? & Hno)|(? & _)]; [|done].
  split; [lia|]. destruct (decide (max_size = 0)) as [|Hne]; [done|].
  exfalso. apply (Hno 1); [lia|]. apply Z.divide_1_l.
Qed.

(** C3 (amended). For every positive [total_ids] and every pair of bounds
    [min_size ≤ max_size] with [max_size ≠ 0] such that some integer of the
    range divides [total_ids], [find_best_chunk_size] returns the largest
    such divisor, which is the first dividing candidate of the downward
    scan. For [35433] groups and the bounds [90] and [110] of the notebook
    it returns [93], and [35433 // 93] is [381] chunks. *)
Theorem find_best_chunk_size_largest_divisor :
  (∀ total_ids min_size max_size,
     0 < total_ids → min_size ≤ max_size → max_size ≠ 0 →
     (∃ d, divisor_in_range total_ids min_size max_size d) →
     ∃ d, find_best_chunk_size total_ids min_size max_size = Ok d ∧
          largest_divisor_in_range total_ids min_size max_size d ∧
          ∀ d', d < d' ≤ max_size → ¬ (d' | total_ids)) ∧
  find_best_chunk_size 35433 desired_chunk_size_min desired_chunk_size_max = Ok 93 ∧
  num_chunks 35433 93 = 381.
Proof.
  split; [|by vm_compute].
  intros total_ids min_size max_size _ _ Hmax [d0 [Hd0 Hdiv0]].
  pose proof (find_best_chunk_size_spec total_ids min_size max_size) as H.
  destruct (find_best_chunk_size _ _ _) as [d|e].
  - destruct H as (Hr & _ & Hdiv & Hlast). exists d. split; [done|].
    split; [split; [done|]|].
    + intros d' [Hr' Hdiv']. destruct (decide (d' ≤ d)) as [|Hgt]; [done|].
      destruct (Hlast d' ltac:(lia)) as [_ Hn]. by destruct Hn.
    + intros d' Hd'. by destruct (Hlast d' Hd').
  - exfalso. destruct H as [(_ & Hr & Hno)|(_ & Hno)].
    + apply (Hno 1); [lia|]. apply Z.divide_1_l.
    + destruct (Hno d0 Hd0) as [_ Hn]. by apply Hn.
Qed.

Lemma find_best_chunk_size_largest_divisor_witness :
  ∃ d, find_best_chunk_size 35433 90 110 = Ok d ∧
       largest_divisor_in_range 35433 90 110 d ∧
       ∀ d', d < d' ≤ 110 → ¬ (d' | 35433).
Proof.
  apply (proj1 find_best_chunk_size_largest_divisor 35433 90 110);
    [lia | lia | lia |].
  exists 93. split; [lia|]. exists 381. reflexivity.
Defined.

(** C3 as stated fails where the scan starts at the candidate [0]: with
    [total_ids = 7] and the bounds [-1] and [0], the integer [-1] of the
    range divides [7], and the modulo by [0] raises before [-1] is tried. *)
Lemma find_best_chunk_size_zero_candidate :
  find_best_chunk_size 7 (-1) 0 = Raise ZeroDivisionError ∧
  ¬ (∀ total_ids min_size max_size,
       0 < total_ids → min_size ≤ max_size →
       (∃ d, divisor_in_range total_ids min_size max_size d) →
       ∃ d, find_best_chunk_size total_ids min_size max_size = Ok d ∧
            largest_divisor_in_range total_ids min_size max_size d).
Proof.
  split; [done|]. intros H.
  destruct (H 7 (-1) 0) as (d & Hd & _); [lia | lia | | done].
  exists (-1). split; [lia|]. exists (-7). reflexivity.
Qed.

(** C4 (amended). For every positive [total_ids] and bounds
    [min_size ≤ max_size] with [max_size ≠ 0], [find_best_chunk_size] raises
    its [ValueError] exactly when no integer of the range divides
    [total_ids]; when it returns, the result is a divisor of the range; and
    it ends in no other way: the error is the function's result, nothing is
    retried. *)
Theorem find_best_chunk_size_error_iff total_ids min_size max_size :
  0 < total_ids → min_size ≤ max_size → max_size ≠ 0 →
  (find_best_chunk_size total_ids min_size max_size = Raise no_suitable_chunk_size
     ↔ ¬ ∃ d, divisor_in_range total_ids min_size max_size d) ∧
  (∀ d, find_best_chunk_size total_ids min_size max_size = Ok d →
        divisor_in_range total_ids min_size max_size d) ∧
  (∀ e, find_best_chunk_size total_ids min_size max_size = Raise e →
        e = no_suitable_chunk_size).
Proof.
  intros _ _ Hmax.
  pose proof (find_best_chunk_size_spec total_ids min_size max_size) as H.
  pose proof (find_best_chunk_size_zero_division total_ids min_size max_size) as Hz.
  destruct (find_best_chunk_size _ _ _) as [d|e].
  - destruct H as (Hr & _ & Hdiv & _). split; [split|split].
    + done.
    + intros Hno. destruct Hno. by exists d.
    + intros ? [= <-]. done.
    + done.
  - destruct H as [(-> & _)|(-> & Hno)].
    { destruct (Hz eq_refl). done. }
    split; [split|split].
    + intros _ [d [Hd Hdiv]]. destruct (Hno d Hd) as [_ Hn]. by apply Hn.
    + done.
    + done.
    + by intros ? [= <-].
Qed.

Lemma find_best_chunk_size_error_iff_witness :
  (find_best_chunk_size 7 2 6 = Raise no_suitable_chunk_size
     ↔ ¬ ∃ d, divisor_in_range 7 2 6 d) ∧
  (∀ d, find_best_chunk_size 7 2 6 = Ok d → divisor_in_range 7 2 6 d) ∧
  (∀ e, find_best_chunk_size 7 2 6 = Raise e → e = no_suitable_chunk_size).
Proof.
  apply (find_best_chunk_size_error_iff 7 2 6); lia.
Defined.

(** C4 as stated fails for the bounds [0] and [0]: no integer of the range
    divides [7], and the function raises [ZeroDivisionError], which is not
    its [ValueError]. *)
Lemma find_best_chunk_size_zero_bounds :
  find_best_chunk_size 7 0 0 = Raise ZeroDivisionError ∧
  ¬ (∀ total_ids min_size max_size,
       0 < total_ids → min_size ≤ max_size →
       (find_best_chunk_size total_ids min_size max_size
          = Raise no_suitable_chunk_size
        ↔ ¬ ∃ d, divisor_in_range total_ids min_size max_size d)).
Proof.
  split; [done|]. intros H.
  destruct (H 7 0 0) as [_ Hback]; [lia | lia |].
  discriminate Hback. intros (d & Hd & k & Hk).
  assert (d = 0) as -> by lia. lia.
Qed.

End divisor_search.

(** ** The directory scan *)

Section directory_scan.

Implicit Types (walk : Walk) (st : ScanState) (root file : string).

(** One file adds at most one record or one printed line to the state. *)
Lemma scan_file_acc root st file :
  scan_file root st file =
    let items := (λ f, (root, f)) <$> filter (λ f, Py.endswith f ".flac" = true) [file] in
    mkScan (data st ++ (row_of_item <$> filter (λ i, ¬ excluded (audio_id_of i)) items))
           (printed st ++ (skip_line <$> filter (λ i, excluded (audio_id_of i)) items)).
Proof.
  unfold scan_file. rewrite filter_cons, filter_nil.
  destruct (Py.endswith file ".flac") eqn:Hext.
  - rewrite decide_True by done. cbn [fmap list_fmap].
    rewrite !filter_cons, !filter_nil.
    destruct (decide (excluded (audio_id_of (root, file)))) as [Hex|Hex].
    + rewrite decide_False by (intros Hn; by apply Hn).
      unfold excluded, audio_id_of in Hex. cbn [fst snd] in Hex. rewrite Hex.
      cbn [fmap list_fmap]. by rewrite app_nil_r.
    + rewrite decide_True by done.
      unfold excluded, audio_id_of in Hex. cbn [fst snd] in Hex.
      apply not_true_is_false in Hex. rewrite Hex.
      cbn [fmap list_fmap]. by rewrite app_nil_r.
  - rewrite decide_False by done. cbn [fmap list_fmap].
    rewrite !filter_nil. cbn [fmap list_fmap]. rewrite !app_nil_r. by destruct st.
Qed.

Lemma scan_dir_acc files : ∀ root st,
  scan_dir st (root, files) =
    let items := (λ f, (root, f)) <$> filter (λ f, Py.endswith f ".flac" = true) files in
    mkScan (data st ++ (row_of_item <$> filter (λ i, ¬ excluded (audio_id_of i)) items))
           (printed st ++ (skip_line <$> filter (λ i, excluded (audio_id_of i)) items)).
Proof.
  unfold scan_dir. cbn [fst snd].
  induction files as [|file files IH]; intros root st.
  - cbn. rewrite !app_nil_r. by destruct st.
  - cbn [foldl]. rewrite IH, scan_file_acc. cbn zeta. cbn [data printed].
    change (file :: files) with ([file] ++ files).
    rewrite filter_app, fmap_app, !filter_app, !fmap_app.
    by rewrite !app_assoc.
Qed.

Lemma create_df_run_acc walk : ∀ st,
  foldl scan_dir st walk =
    mkScan (data st ++ (row_of_item <$> filter (λ i, ¬ excluded (audio_id_of i)) (flac_files walk)))
           (printed st ++ (skip_line <$> filter (λ i, excluded (audio_id_of i)) (flac_files walk))).
Proof.
  induction walk as [|[root files] walk IH]; intros st.
  - cbn. rewrite !app_nil_r. by destruct st.
  - cbn [foldl]. rewrite IH, scan_dir_acc. cbn zeta. cbn [data printed].
    unfold flac_files. rewrite bind_cons, !filter_app, !fmap_app.
    by rewrite !app_assoc.
Qed.

(** [create_df] as a function of the scan: the records of the [.flac]
    files whose group id is not excluded, in scan order. *)
Lemma create_df_items walk :
  create_df walk =
    row_of_item <$> filter (λ i, ¬ excluded (audio_id_of i)) (flac_files walk).
Proof. unfold create_df, create_df_run. by rewrite create_df_run_acc. Qed.

(** The group ids of the frame, in row order. *)
Lemma create_df_ids walk :
  audio_id <$> create_df walk =
    filter (λ id, ¬ excluded id) (audio_id_of <$> flac_files walk).
Proof.
  rewrite create_df_items.
  induction (flac_files walk) as [|item items IH]; [done|].
  rewrite fmap_cons, !filter_cons. cbv beta.
  destruct (decide (¬ excluded (audio_id_of item))); [|done].
  by rewrite !fmap_cons, IH.
Qed.

(** What [create_df] prints: one line per excluded [.flac] file. *)
Lemma create_df_printed walk :
  printed (create_df_run walk) =
    skip_line <$> filter (λ i, excluded (audio_id_of i)) (flac_files walk).
Proof. unfold create_df_run. by rewrite create_df_run_acc. Qed.

Lemma flac_files_elem_of walk root file :
  (root, file) ∈ flac_files walk ↔
  Py.endswith file ".flac" = true ∧ ∃ files, (root, files) ∈ walk ∧ file ∈ files.
Proof.
  unfold flac_files. rewrite list_elem_of_bind. split.
  - intros ([root' files] & Hin & Hwalk).
    apply list_elem_of_fmap in Hin as (f & [= -> ->] & Hf).
    apply list_elem_of_filter in Hf as [Hext Hf]. eauto.
  - intros (Hext & files & Hwalk & Hf). exists (root, files). split; [|done].
    apply list_elem_of_fmap. exists file. split; [done|].
    by apply list_elem_of_filter.
Qed.

Lemma flac_files_flac_only walk : flac_files (flac_only walk) = flac_files walk.
Proof.
  unfold flac_files, flac_only. induction walk as [|[root files] walk IH]; [done|].
  rewrite fmap_cons, !bind_cons, IH. f_equal. cbn [fst snd]. f_equal.
  induction files as [|f files IHf]; [done|].
  rewrite !filter_cons. destruct (decide (Py.endswith f ".flac" = true)) as [Hf|Hf].
  - rewrite filter_cons, decide_True by done. by rewrite IHf.
  - done.
Qed.

End directory_scan.

(** ** Grouping *)

Section grouping.

Implicit Types (df : DataFrame) (k : string) (g : Group).

Lemma sorted_ids_elem_of df k : k ∈ sorted_ids df ↔ k ∈ audio_id <$> df.
Proof.
  unfold sorted_ids. rewrite merge_sort_Permutation. apply elem_of_remove_dups.
Qed.

Lemma sorted_ids_NoDup df : NoDup (sorted_ids df).
Proof.
  unfold sorted_ids. rewrite merge_sort_Permutation. apply NoDup_remove_dups.
Qed.

Lemma sorted_ids_sorted df : StronglySorted String.le (sorted_ids df).
Proof. apply (StronglySorted_merge_sort _). Qed.

Lemma groups_of_keys df : (groups_of df).*1 = sorted_ids df.
Proof.
  unfold groups_of. rewrite <- list_fmap_compose.
  rewrite <- (list_fmap_id (sorted_ids df)) at 2. by apply list_fmap_ext.
Qed.

Lemma groups_of_well_grouped df : Forall well_grouped (groups_of df).
Proof.
  apply Forall_forall. intros g Hg.
  apply list_elem_of_fmap in Hg as (k & -> & Hk).
  apply sorted_ids_elem_of, list_elem_of_fmap in Hk as (r & -> & Hr).
  split; cbn [fst snd].
  - intros Hnil. apply (filter_nil_not_elem_of _ _ r) in Hnil; done.
  - apply Forall_forall. intros r' Hr'. by apply list_elem_of_filter in Hr' as [? _].
Qed.

Lemma groupby_audio_id_eq df :
  groupby_audio_id df =
    match df with [] => Raise (KeyError "audio_id") | _ => Ok (groups_of df) end.
Proof. by destruct df. Qed.

Lemma rows_of_cons g (c : list Group) : rows_of (g :: c) = g.2 ++ rows_of c.
Proof. done. Qed.

Lemma rows_of_app (c1 c2 : list Group) :
  rows_of (c1 ++ c2) = rows_of c1 ++ rows_of c2.
Proof. unfold rows_of. by rewrite fmap_app, join_app. Qed.

Lemma ids_of_group k (rs : list Row) :
  rs ≠ [] → Forall (λ r, audio_id r = k) rs →
  (list_to_set (audio_id <$> rs) : gset string) = {[ k ]}.
Proof.
  intros Hne Hk. apply set_eq. intros x.
  rewrite elem_of_list_to_set, list_elem_of_fmap, elem_of_singleton.
  rewrite Forall_forall in Hk. split.
  - intros (r & -> & Hr). by apply Hk.
  - intros ->. destruct rs as [|r rs]; [done|]. exists r.
    split; [symmetry; apply Hk|]; left.
Qed.

(** The group ids of the rows of a list of groups are the keys. *)
Lemma chunk_ids_rows_of (c : list Group) :
  Forall well_grouped c → chunk_ids (rows_of c) = list_to_set c.*1.
Proof.
  unfold chunk_ids. induction 1 as [|[k rs] c [Hne Hk] _ IH]; [done|].
  rewrite rows_of_cons, fmap_app, list_to_set_app_L, IH, fmap_cons.
  cbn [fst snd list_to_set] in *. by rewrite (ids_of_group k).
Qed.

Lemma rows_of_elem_of_groups_of df (r : Row) :
  r ∈ rows_of (groups_of df) ↔ r ∈ df.
Proof.
  unfold rows_of. rewrite list_elem_of_join. split.
  - intros (rs & Hr & Hrs). apply list_elem_of_fmap in Hrs as (g & -> & Hg).
    apply list_elem_of_fmap in Hg as (k & -> & _).
    by apply list_elem_of_filter in Hr as [_ ?].
  - intros Hr. exists (filter (λ r', audio_id r' = audio_id r) df). split.
    + by apply list_elem_of_filter.
    + apply list_elem_of_fmap.
      exists (audio_id r, filter (λ r', audio_id r' = audio_id r) df).
      split; [done|]. apply list_elem_of_fmap. exists (audio_id r).
      split; [done|]. apply sorted_ids_elem_of. by apply list_elem_of_fmap_2.
Qed.

End grouping.

(** ** The chunk creation loop *)

Section chunk_loop.

Context (chunk_size : Z).
Implicit Types (gs : GroupState) (g : Group) (G : list Group).

Lemma plan_of_snoc (chunks : list (list Group)) (c : list Group) :
  plan_of (chunks ++ [c]) =
    plan_of chunks ++ [(chunk_name (length chunks), rows_of c)].
Proof. unfold plan_of. rewrite imap_app. cbn. by rewrite Nat.add_0_r. Qed.

Lemma for_each_app {S A} (body : S → A → result S) (st : S) (xs ys : list A) :
  for_each body st (xs ++ ys) =
    st' ← for_each body st xs ; for_each body st' ys.
Proof.
  revert st. induction xs as [|x xs IH]; intros st; [done|].
  cbn [app for_each]. destruct (body st x) as [st'|e]; cbn; [apply IH|done].
Qed.

(** The cast goes through on the rows of a chunk that holds a group. *)
Lemma cast_rows_of (c : list Group) :
  c ≠ [] → Forall well_grouped c →
  cast_column_audio (rows_of c) = Ok (rows_of c).
Proof.
  destruct c as [|g c]; [done|]. intros _ [[Hne _] _]%Forall_cons.
  rewrite rows_of_cons. by destruct (g.2).
Qed.

(** One iteration of the loop is one step on groups, as long as the key of
    the group is new to the open chunk and the chunk size is positive. *)
Lemma loop_body_group_step gs g :
  (1 ≤ chunk_size)%Z →
  Forall well_grouped (open gs) →
  NoDup ((open gs).*1 ++ [g.1]) →
  loop_body chunk_size (loop_state_of gs) g =
    Ok (loop_state_of (group_step chunk_size gs g)).
Proof.
  intros Hcs Hwg Hnd. apply NoDup_app in Hnd as (Hopen & Hfresh & _).
  unfold loop_body, group_step.
  cbn [audio_ids_so_far current_chunk chunk_index datasets loop_state_of].
  rewrite decide_False; last first.
  { rewrite elem_of_list_to_set. intros Hin. apply (Hfresh _ Hin). left. }
  rewrite size_list_to_set, length_fmap by done.
  destruct (Z.gtb_spec (Z.of_nat (length (open gs)) + 1) chunk_size)
    as [Hgt|Hle].
  - unfold save_chunk. rewrite cast_rows_of; [|by destruct (open gs); cbn in *; [lia|]|done].
    cbn [mbind result_bind]. unfold loop_state_of.
    cbn [audio_ids_so_far current_chunk chunk_index datasets sealed open].
    do 2 f_equal.
    + rewrite length_app. cbn. lia.
    + symmetry. apply plan_of_snoc.
    + rewrite rows_of_cons. unfold rows_of. cbn. by rewrite app_nil_r.
  - cbn [mbind result_bind]. unfold loop_state_of.
    cbn [audio_ids_so_far current_chunk chunk_index datasets sealed open].
    do 2 f_equal.
    + rewrite rows_of_app, rows_of_cons. unfold rows_of at 3. cbn.
      by rewrite app_nil_r.
    + rewrite fmap_app, list_to_set_app_L, (comm_L (∪)). f_equal.
      cbn. by rewrite (right_id_L ∅ (∪)).
Qed.

Lemma group_run_snoc G g :
  group_run chunk_size (G ++ [g]) = group_step chunk_size (group_run chunk_size G) g.
Proof. unfold group_run. by rewrite foldl_app. Qed.

(** The sealed chunks followed by the open one are the groups processed. *)
Lemma group_run_concat G :
  mjoin (sealed (group_run chunk_size G)) ++ open (group_run chunk_size G) = G.
Proof.
  induction G as [|g G IH] using rev_ind; [done|].
  rewrite group_run_snoc. unfold group_step.
  destruct (_ >? _)%Z; cbn [sealed open].
  - rewrite join_app. cbn. by rewrite app_nil_r, IH.
  - by rewrite app_assoc, IH.
Qed.

Lemma group_run_open_nonempty G :
  G ≠ [] → open (group_run chunk_size G) ≠ [].
Proof.
  destruct G as [|g G _] using rev_ind; [done|]. intros _.
  rewrite group_run_snoc. unfold group_step.
  destruct (_ >? _)%Z; cbn [open]; [done|]. by destruct (open _).
Qed.

(** Every sealed chunk is full, and the open chunk never grows beyond the
    chunk size. *)
Lemma group_run_sizes G :
  (1 ≤ chunk_size)%Z →
  Forall (λ c, Z.of_nat (length c) = chunk_size) (sealed (group_run chunk_size G)) ∧
  (Z.of_nat (length (open (group_run chunk_size G))) ≤ chunk_size)%Z.
Proof.
  intros Hcs. induction G as [|g G [IHs IHo]] using rev_ind.
  - split; [constructor|]. cbn. lia.
  - rewrite group_run_snoc. unfold group_step.
    destruct (Z.gtb_spec (Z.of_nat (length (open (group_run chunk_size G))) + 1)
                chunk_size) as [Hgt|Hle]; cbn [sealed open].
    + split; [|cbn; lia]. apply Forall_app. split; [done|].
      apply Forall_singleton. lia.
    + split; [done|]. rewrite length_app. cbn. lia.
Qed.

Lemma for_each_loop_body G :
  (1 ≤ chunk_size)%Z →
  NoDup G.*1 → Forall well_grouped G →
  for_each (loop_body chunk_size) loop_init G =
    Ok (loop_state_of (group_run chunk_size G)).
Proof.
  intros Hcs. induction G as [|g G IH] using rev_ind; [done|]. intros Hnd Hwg.
  rewrite for_each_app, group_run_snoc.
  rewrite fmap_app in Hnd. apply Forall_app in Hwg as [HwgG _].
  rewrite IH by (by apply NoDup_app in Hnd as [? _]).
  cbn [mbind result_bind for_each].
  rewrite <- (group_run_concat G) in HwgG. apply Forall_app in HwgG as [_ Hopen].
  rewrite loop_body_group_step; [done..|].
  rewrite <- (group_run_concat G), fmap_app, <- app_assoc in Hnd.
  by apply NoDup_app in Hnd as (_ & _ & ?).
Qed.

(** With a chunk size below one the first iteration already finds the
    empty chunk too large and saves it, which the cast refuses. *)
Lemma for_each_loop_body_nonpositive g G :
  (chunk_size ≤ 0)%Z →
  for_each (loop_body chunk_size) loop_init (g :: G) = Raise CastError.
Proof.
  intros Hcs. cbn [for_each]. unfold loop_body, loop_init.
  cbn [audio_ids_so_far current_chunk chunk_index datasets].
  rewrite decide_False by apply not_elem_of_empty.
  rewrite size_empty.
  destruct (Z.gtb_spec (Z.of_nat 0 + 1) chunk_size) as [_|Hle]; [done|lia].
Qed.

Lemma loop_finish_plan_of gs :
  Forall well_grouped (open gs) →
  loop_finish (loop_state_of gs) = Ok (plan_of (group_chunks gs)).
Proof.
  intros Hwg. unfold loop_finish, group_chunks.
  cbn [current_chunk chunk_index datasets loop_state_of].
  destruct (open gs) as [|g o] eqn:Hopen.
  - by rewrite app_nil_r.
  - apply Forall_cons in Hwg as [[Hne _] _]. rewrite rows_of_cons.
    destruct (g.2) as [|r rs] eqn:Hg; [done|]. cbn [app].
    rewrite plan_of_snoc, rows_of_cons, Hg. done.
Qed.

End chunk_loop.

Lemma groups_of_nonempty (r : Row) (df : DataFrame) : groups_of (r :: df) ≠ [].
Proof.
  intros HG. pose proof (groups_of_keys (r :: df)) as Hk. rewrite HG in Hk.
  assert (audio_id r ∈ sorted_ids (r :: df)) as Hin
    by (apply sorted_ids_elem_of; left).
  rewrite <- Hk in Hin. by apply elem_of_nil in Hin.
Qed.

(** The plan of a frame: [KeyError] for the frame without columns,
    [CastError] for a chunk size below one, and otherwise the chunks of the
    loop on whole groups. *)
Lemma chunk_creation_loop_eq (df : DataFrame) (chunk_size : Z) :
  chunk_creation_loop df chunk_size =
    match df with
    | [] => Raise (KeyError "audio_id")
    | _ =>
        if decide (1 ≤ chunk_size)%Z then
          Ok (plan_of (group_chunks (group_run chunk_size (groups_of df))))
        else Raise CastError
    end.
Proof.
  unfold chunk_creation_loop. rewrite groupby_audio_id_eq.
  destruct df as [|r df]; [done|]. cbn [mbind result_bind].
  destruct (decide (1 ≤ chunk_size)%Z) as [Hcs|Hcs].
  - rewrite for_each_loop_body;
      [|done|rewrite groups_of_keys; apply sorted_ids_NoDup
       |apply groups_of_well_grouped].
    cbn [mbind result_bind]. apply loop_finish_plan_of.
    pose proof (groups_of_well_grouped (r :: df)) as Hwg.
    rewrite <- (group_run_concat chunk_size (groups_of (r :: df))) in Hwg.
    by apply Forall_app in Hwg as [_ ?].
  - pose proof (groups_of_nonempty r df) as HG.
    destruct (groups_of (r :: df)) as [|g G]; [done|].
    rewrite for_each_loop_body_nonpositive by lia. done.
Qed.

(** ** The shape of the plan *)

Section plan_shape.

Implicit Types (df : DataFrame) (chunks : list (list Group)) (c : list Group).

Lemma group_chunks_concat chunk_size (G : list Group) :
  mjoin (group_chunks (group_run chunk_size G)) = G.
Proof.
  unfold group_chunks. rewrite join_app.
  rewrite <- (group_run_concat chunk_size G) at 3. f_equal.
  destruct (open _); [done|]. cbn. by rewrite app_nil_r.
Qed.

Lemma group_chunks_snoc chunk_size (G : list Group) :
  G ≠ [] →
  group_chunks (group_run chunk_size G) =
    sealed (group_run chunk_size G) ++ [open (group_run chunk_size G)].
Proof.
  intros HG. apply (group_run_open_nonempty chunk_size) in HG.
  unfold group_chunks. by destruct (open _).
Qed.

Lemma plan_of_rows chunks : (plan_of chunks).*2 = rows_of <$> chunks.
Proof.
  induction chunks as [|c chunks IH] using rev_ind; [done|].
  by rewrite plan_of_snoc, !fmap_app, IH.
Qed.

Lemma plan_of_names chunks :
  (plan_of chunks).*1 = chunk_name <$> seq 0 (length chunks).
Proof.
  induction chunks as [|c chunks IH] using rev_ind; [done|].
  rewrite plan_of_snoc, length_app, Nat.add_comm, seq_S, !fmap_app, IH. done.
Qed.

Lemma plan_of_lookup chunks i p :
  plan_of chunks !! i = Some p ↔
  ∃ c, chunks !! i = Some c ∧ p = (chunk_name i, rows_of c).
Proof.
  unfold plan_of. rewrite list_lookup_imap. destruct (chunks !! i) as [c|]; cbn.
  - split; [intros [= <-]; eauto | by intros (? & [= <-] & ->)].
  - split; [done | by intros (? & ? & _)].
Qed.

Lemma mjoin_cons {A} (l : list A) (ls : list (list A)) :
  mjoin (l :: ls) = l ++ mjoin ls.
Proof. done. Qed.

Lemma join_rows_of chunks : mjoin (rows_of <$> chunks) = rows_of (mjoin chunks).
Proof.
  induction chunks as [|c chunks IH]; [done|].
  by rewrite fmap_cons, !mjoin_cons, IH, rows_of_app.
Qed.

(** A chunk of consecutive groups inherits what holds of all groups. *)
Lemma chunk_of_groups chunks c :
  c ∈ chunks →
  Forall well_grouped (mjoin chunks) → NoDup (mjoin chunks).*1 →
  Forall well_grouped c ∧ NoDup c.*1.
Proof.
  intros (l1 & l2 & ->)%list_elem_of_split.
  rewrite join_app, mjoin_cons, !fmap_app. intros Hwg Hnd. split.
  - by apply Forall_app in Hwg as [_ [? _]%Forall_app].
  - by apply NoDup_app in Hnd as (_ & _ & (? & _)%NoDup_app).
Qed.

Lemma group_count_rows_of c :
  Forall well_grouped c → NoDup c.*1 → group_count (rows_of c) = length c.
Proof.
  intros Hwg Hnd. unfold group_count.
  by rewrite chunk_ids_rows_of, size_list_to_set, length_fmap.
Qed.

(** Two lists at different places of a duplicate-free concatenation share
    no element. *)
Lemma NoDup_join_lookup_disjoint {A} (ls : list (list A)) :
  NoDup (mjoin ls) →
  ∀ i j l1 l2 x, i < j → ls !! i = Some l1 → ls !! j = Some l2 →
                 x ∈ l1 → x ∉ l2.
Proof.
  induction ls as [|l ls IH]; intros Hnd i j l1 l2 x Hij Hi Hj Hx1 Hx2.
  { by rewrite lookup_nil in Hi. }
  rewrite mjoin_cons in Hnd. apply NoDup_app in Hnd as (_ & Hdisj & Hnd).
  destruct i as [|i], j as [|j]; try lia; cbn in Hi, Hj.
  - injection Hi as <-. apply (Hdisj x Hx1).
    apply list_elem_of_join. exists l2. split; [done|].
    apply list_elem_of_lookup. eauto.
  - apply (IH Hnd i j l1 l2 x); [lia|done..].
Qed.

Lemma length_join_const {A} (ls : list (list A)) (n : nat) :
  Forall (λ l, length l = n) ls → length (mjoin ls) = length ls * n.
Proof.
  induction 1 as [|l ls Hl _ IH]; [done|].
  rewrite mjoin_cons, length_app, IH, Hl. cbn. lia.
Qed.

(** What the loop returns on a frame with rows and a positive chunk size:
    the plan of chunks of consecutive groups, all full but possibly the
    last. *)
Lemma chunk_creation_loop_chunks df chunk_size :
  df ≠ [] → (1 ≤ chunk_size)%Z →
  ∃ full lst,
    chunk_creation_loop df chunk_size = Ok (plan_of (full ++ [lst])) ∧
    mjoin (full ++ [lst]) = groups_of df ∧
    lst ≠ [] ∧
    Forall (λ c, Z.of_nat (length c) = chunk_size) full ∧
    (Z.of_nat (length lst) ≤ chunk_size)%Z.
Proof.
  intros Hdf Hcs. rewrite chunk_creation_loop_eq.
  destruct df as [|r df]; [done|]. rewrite decide_True by done.
  pose proof (groups_of_nonempty r df) as HG.
  exists (sealed (group_run chunk_size (groups_of (r :: df)))),
         (open (group_run chunk_size (groups_of (r :: df)))).
  rewrite <- group_chunks_snoc by done. split; [done|].
  split; [apply group_chunks_concat|]. split.
  - by apply group_run_open_nonempty.
  - by apply group_run_sizes.
Qed.

(** A plan comes only from a frame with rows and a positive chunk size. *)
Lemma chunk_creation_loop_Ok df chunk_size plan :
  chunk_creation_loop df chunk_size = Ok plan →
  df ≠ [] ∧ (1 ≤ chunk_size)%Z ∧
  plan = plan_of (group_chunks (group_run chunk_size (groups_of df))).
Proof.
  rewrite chunk_creation_loop_eq. destruct df as [|r df]; [done|].
  destruct (decide (1 ≤ chunk_size)%Z); [|done]. by intros [= <-].
Qed.

Lemma chunk_creation_loop_Ok_chunks df chunk_size plan :
  chunk_creation_loop df chunk_size = Ok plan →
  ∃ full lst,
    plan = plan_of (full ++ [lst]) ∧
    mjoin (full ++ [lst]) = groups_of df ∧
    lst ≠ [] ∧ (1 ≤ chunk_size)%Z ∧
    Forall (λ c, Z.of_nat (length c) = chunk_size) full ∧
    (Z.of_nat (length lst) ≤ chunk_size)%Z.
Proof.
  intros Hloop.
  destruct (chunk_creation_loop_Ok _ _ _ Hloop) as (Hdf & Hcs & _).
  destruct (chunk_creation_loop_chunks df chunk_size Hdf Hcs)
    as (full & lst & Hplan & Hjoin & Hlst & Hfull & Hlast).
  exists full, lst. rewrite Hloop in Hplan. by injection Hplan as ->.
Qed.

Lemma chunk_creation_loop_raise df chunk_size e :
  chunk_creation_loop df chunk_size = Raise e → loop_raises df chunk_size e.
Proof.
  rewrite chunk_creation_loop_eq. destruct df as [|r df].
  - intros [= <-]. by left.
  - destruct (decide (1 ≤ chunk_size)%Z); [done|]. intros [= <-].
    right. split; [done|]. split; [done|lia].
Qed.

(** The rows of all chunks in order are the rows of all groups in order. *)
Lemma plan_rows df chunk_size plan :
  chunk_creation_loop df chunk_size = Ok plan →
  mjoin plan.*2 = rows_of (groups_of df).
Proof.
  intros (_ & _ & ->)%chunk_creation_loop_Ok.
  by rewrite plan_of_rows, join_rows_of, group_chunks_concat.
Qed.

Lemma plan_rows_elem_of df chunk_size plan p (r : Row) :
  chunk_creation_loop df chunk_size = Ok plan → p ∈ plan → r ∈ p.2 → r ∈ df.
Proof.
  intros Hplan Hp Hr. apply rows_of_elem_of_groups_of.
  rewrite <- (plan_rows _ _ _ Hplan). apply list_elem_of_join.
  exists p.2. split; [done|]. by apply list_elem_of_fmap_2.
Qed.

End plan_shape.

(** ** Coverage and sizes of the chunks *)

Section coverage.

Implicit Types (df : DataFrame) (chunks : list (list Group)) (c : list Group).

Lemma chunk_ids_app (rows1 rows2 : list Row) :
  chunk_ids (rows1 ++ rows2) = chunk_ids rows1 ∪ chunk_ids rows2.
Proof. unfold chunk_ids. by rewrite fmap_app, list_to_set_app_L. Qed.

Lemma union_chunk_ids (plan : list (string * Dataset)) :
  ⋃ ((λ p, chunk_ids p.2) <$> plan) = chunk_ids (mjoin plan.*2).
Proof.
  induction plan as [|p plan IH]; [done|].
  by rewrite !fmap_cons, union_list_cons, mjoin_cons, chunk_ids_app, IH.
Qed.

Lemma chunk_ids_groups_of df : chunk_ids (rows_of (groups_of df)) = chunk_ids df.
Proof.
  apply set_eq. intros x. unfold chunk_ids.
  rewrite !elem_of_list_to_set, !list_elem_of_fmap.
  by setoid_rewrite rows_of_elem_of_groups_of.
Qed.

Lemma group_count_groups_of df : group_count df = length (groups_of df).
Proof.
  unfold group_count. rewrite <- chunk_ids_groups_of.
  rewrite chunk_ids_rows_of by apply groups_of_well_grouped.
  rewrite groups_of_keys, size_list_to_set by apply sorted_ids_NoDup.
  by rewrite <- groups_of_keys, length_fmap.
Qed.

Lemma join_keys chunks : mjoin (fmap fst <$> chunks) = (mjoin chunks).*1.
Proof.
  induction chunks as [|c chunks IH]; [done|].
  by rewrite fmap_cons, !mjoin_cons, fmap_app, IH.
Qed.

(** The chunks of the groups of a frame: each is well grouped and has
    distinct keys, and chunks at different places share no key. *)
Lemma chunks_of_frame df chunks :
  mjoin chunks = groups_of df →
  (∀ c, c ∈ chunks → Forall well_grouped c ∧ NoDup c.*1) ∧
  (∀ i j ci cj, i ≠ j → chunks !! i = Some ci → chunks !! j = Some cj →
                ∀ k, k ∈ ci.*1 → k ∉ cj.*1).
Proof.
  intros Hjoin.
  assert (NoDup (mjoin chunks).*1) as Hnd
    by (rewrite Hjoin, groups_of_keys; apply sorted_ids_NoDup).
  assert (Forall well_grouped (mjoin chunks)) as Hwg
    by (rewrite Hjoin; apply groups_of_well_grouped).
  split.
  - intros c Hc. by apply (chunk_of_groups chunks).
  - intros i j ci cj Hij Hi Hj k Hki Hkj.
    rewrite <- join_keys in Hnd.
    pose proof (NoDup_join_lookup_disjoint _ Hnd) as Hdisj.
    destruct (decide (i < j)).
    + apply (Hdisj i j ci.*1 cj.*1 k); [done| | |done..];
        rewrite list_lookup_fmap; by (rewrite Hi || rewrite Hj).
    + apply (Hdisj j i cj.*1 ci.*1 k); [lia| | |done..];
        rewrite list_lookup_fmap; by (rewrite Hi || rewrite Hj).
Qed.

Lemma filter_all {A} (P : A → Prop) `{∀ x, Decision (P x)} (l : list A) :
  Forall P l → filter P l = l.
Proof.
  induction 1 as [|x l Hx _ IH]; [done|].
  by rewrite filter_cons, decide_True, IH.
Qed.

Lemma filter_none {A} (P : A → Prop) `{∀ x, Decision (P x)} (l : list A) :
  Forall (λ x, ¬ P x) l ↔ filter P l = [].
Proof.
  induction l as [|x l IH]; [done|]. rewrite Forall_cons, filter_cons.
  destruct (decide (P x)) as [Hx|Hx].
  - split; [by intros [? _]|done].
  - rewrite IH. split; [by intros [_ ?]|done].
Qed.

Lemma filter_rows_of_absent c (k : string) :
  Forall well_grouped c → k ∉ c.*1 →
  filter (λ r, audio_id r = k) (rows_of c) = [].
Proof.
  intros Hwg Hk. apply filter_none, Forall_forall. intros r Hr Heq.
  apply Hk. rewrite <- Heq. apply (elem_of_list_to_set (C:=gset string)).
  rewrite <- chunk_ids_rows_of by done. unfold chunk_ids.
  by apply elem_of_list_to_set, list_elem_of_fmap_2.
Qed.

(** Among the rows of groups with distinct keys, those of one key are the
    rows of its group. *)
Lemma filter_rows_of c : ∀ g,
  Forall well_grouped c → NoDup c.*1 → g ∈ c →
  filter (λ r, audio_id r = g.1) (rows_of c) = g.2.
Proof.
  induction c as [|g' c IH]; intros g Hwg Hnd Hg; [by apply elem_of_nil in Hg|].
  apply Forall_cons in Hwg as [[Hne Hg'] Hwg].
  rewrite fmap_cons in Hnd. apply NoDup_cons in Hnd as [Hfresh Hnd].
  rewrite rows_of_cons, filter_app.
  apply elem_of_cons in Hg as [->|Hg].
  - rewrite filter_all by done.
    by rewrite filter_rows_of_absent, app_nil_r.
  - rewrite IH by done.
    assert (filter (λ r, audio_id r = g.1) g'.2 = []) as ->; [|done].
    apply filter_none. eapply Forall_impl; [exact Hg'|].
    intros r Hr Heq. apply Hfresh. rewrite <- Hr, Heq.
    by apply list_elem_of_fmap_2.
Qed.

(** A chunk of the groups of a frame holds, of every key it holds, the
    rows of the frame with that key, in the order of the frame. *)
Lemma chunk_keeps_group_rows df chunks c (k : string) :
  mjoin chunks = groups_of df → c ∈ chunks → k ∈ chunk_ids (rows_of c) →
  filter (λ r, audio_id r = k) (rows_of c) = filter (λ r, audio_id r = k) df.
Proof.
  intros Hjoin Hin. destruct (chunks_of_frame _ _ Hjoin) as [Hwg _].
  destruct (Hwg c Hin) as [Hwgc Hndc].
  rewrite chunk_ids_rows_of by done.
  intros (g & -> & Hg)%elem_of_list_to_set%list_elem_of_fmap.
  rewrite filter_rows_of by done.
  assert (g ∈ groups_of df) as Hgdf.
  { rewrite <- Hjoin. apply list_elem_of_join. eauto. }
  by apply list_elem_of_fmap in Hgdf as (k & -> & _).
Qed.

(** C1. For every frame of items and every chunk size, the plan of the
    chunk creation loop covers each group id of the frame exactly once: the
    union of the group ids of the chunks is the set of group ids of the
    frame, and no group id lies in two chunks. The loop ends without a
    plan only on the frame without rows and on a chunk size below one. The
    group ids of the frame of [create_df] are those of the scanned [.flac]
    files that are not excluded. *)
Theorem partition_covers_groups_once :
  (∀ df chunk_size,
     match chunk_creation_loop df chunk_size with
     | Ok plan => covers_once plan (chunk_ids df)
     | Raise e => loop_raises df chunk_size e
     end) ∧
  (∀ walk,
     chunk_ids (create_df walk) =
       list_to_set (filter (λ id, ¬ excluded id) (audio_id_of <$> flac_files walk))).
Proof.
  split.
  - intros df chunk_size.
    destruct (chunk_creation_loop df chunk_size) as [plan|e] eqn:Hloop;
      [|by apply chunk_creation_loop_raise in Hloop].
    split.
    + by rewrite union_chunk_ids, (plan_rows _ _ _ Hloop), chunk_ids_groups_of.
    + destruct (chunk_creation_loop_Ok_chunks _ _ _ Hloop)
        as (full & lst & -> & Hjoin & _).
      destruct (chunks_of_frame _ _ Hjoin) as [Hwg Hdisj].
      intros i j pi pj (ci & Hi & ->)%plan_of_lookup (cj & Hj & ->)%plan_of_lookup Hij.
      cbn [snd].
      rewrite !chunk_ids_rows_of
        by (apply Hwg, list_elem_of_lookup; eauto).
      apply elem_of_disjoint. intros k Hki%elem_of_list_to_set Hkj%elem_of_list_to_set.
      by apply (Hdisj i j ci cj Hij Hi Hj k).
  - intros walk. unfold chunk_ids. by rewrite create_df_ids.
Qed.

(** C2. For every frame and every chunk size, every chunk of the plan
    that the loop returns, except the last, contains exactly [chunk_size]
    distinct group ids, and the last contains fewer only when [chunk_size]
    does not divide the number of groups of the frame; no chunk holds more
    than [chunk_size] groups. The loop ends without a plan only on the
    frame without rows and on a chunk size below one, where the first
    iteration hands the empty chunk to [save_chunk]. *)
Theorem chunks_are_full df chunk_size :
  match chunk_creation_loop df chunk_size with
  | Ok plan =>
      full_chunks plan chunk_size (group_count df) ∧
      Forall (λ p, (Z.of_nat (group_count p.2) ≤ chunk_size)%Z) plan
  | Raise e => loop_raises df chunk_size e
  end.
Proof.
  destruct (chunk_creation_loop df chunk_size) as [plan|e] eqn:Hloop;
    [|by apply chunk_creation_loop_raise in Hloop].
  destruct (chunk_creation_loop_Ok_chunks _ _ _ Hloop)
    as (full & lst & -> & Hjoin & Hlst & Hcs & Hfull & Hlast).
  destruct (chunks_of_frame _ _ Hjoin) as [Hwg _].
  assert (∀ c, c ∈ full ++ [lst] → group_count (rows_of c) = length c) as Hcount.
  { intros c Hc. destruct (Hwg c Hc). by apply group_count_rows_of. }
  split; [split|].
  - intros i p (c & Hc & ->)%plan_of_lookup Hi. cbn [snd].
    unfold plan_of in Hi. rewrite length_imap, length_app in Hi. cbn in Hi.
    rewrite lookup_app_l in Hc by lia.
    rewrite Hcount by (apply elem_of_app; left; apply list_elem_of_lookup; eauto).
    rewrite Forall_forall in Hfull. apply Hfull. apply list_elem_of_lookup. eauto.
  - intros p. rewrite plan_of_snoc, last_snoc. intros [= <-]. cbn [snd].
    rewrite Hcount by (apply elem_of_app; right; left).
    intros Hlt [k Hk]. rewrite group_count_groups_of, <- Hjoin in Hk.
    rewrite join_app, mjoin_cons, app_nil_r, length_app in Hk.
    rewrite (length_join_const full (Z.to_nat chunk_size)) in Hk.
    2:{ eapply Forall_impl; [exact Hfull|]. cbn. lia. }
    assert (0 < length lst) by (destruct lst; [done|cbn; lia]).
    rewrite Nat2Z.inj_add, Nat2Z.inj_mul, Z2Nat.id in Hk by lia.
    assert (Z.of_nat (length lst) = (k - Z.of_nat (length full)) * chunk_size)%Z
      as Hrem by lia.
    destruct (decide (k - Z.of_nat (length full) ≤ 0)%Z); nia.
  - apply Forall_forall. intros p (i & (c & Hc & ->)%plan_of_lookup)%list_elem_of_lookup.
    cbn [snd]. rewrite Hcount by (apply list_elem_of_lookup; eauto).
    apply lookup_app_Some in Hc as [Hc|[_ Hc]].
    + rewrite Forall_forall in Hfull. rewrite (Hfull c); [lia|].
      apply list_elem_of_lookup. eauto.
    + apply list_lookup_singleton_Some in Hc as [_ <-]. done.
Qed.

(** C9. For every frame with rows and every [chunk_size ≥ 1], the loop
    returns a plan, and every chunk of it is non-empty: it holds at least
    one row and at least one group id. *)
Theorem chunks_are_nonempty df chunk_size :
  df ≠ [] → (1 ≤ chunk_size)%Z →
  ∃ plan, chunk_creation_loop df chunk_size = Ok plan ∧ plan ≠ [] ∧
          Forall (λ p, p.2 ≠ [] ∧ chunk_ids p.2 ≠ ∅) plan.
Proof.
  intros Hdf Hcs.
  destruct (chunk_creation_loop_chunks df chunk_size Hdf Hcs)
    as (full & lst & Hplan & Hjoin & Hlst & Hfull & _).
  destruct (chunks_of_frame _ _ Hjoin) as [Hwg _].
  exists (plan_of (full ++ [lst])). split; [done|]. split.
  { rewrite plan_of_snoc. by destruct (plan_of full). }
  apply Forall_forall. intros p (i & (c & Hc & ->)%plan_of_lookup)%list_elem_of_lookup.
  cbn [snd].
  assert (c ∈ full ++ [lst]) as Hin by (apply list_elem_of_lookup; eauto).
  destruct (Hwg c Hin) as [Hwgc _].
  assert (c ≠ []) as Hne.
  { apply elem_of_app in Hin as [Hin|Hin%list_elem_of_singleton]; [|by subst].
    rewrite Forall_forall in Hfull. specialize (Hfull c Hin).
    intros ->. cbn in Hfull. lia. }
  destruct c as [|g c]; [done|].
  pose proof Hwgc as [[Hg _] _]%Forall_cons. split.
  - rewrite rows_of_cons. by destruct (g.2).
  - rewrite chunk_ids_rows_of, fmap_cons by done. cbn [list_to_set].
    intros Hempty. apply (not_elem_of_empty (C:=gset string) g.1).
    rewrite <- Hempty. apply elem_of_union_l. by apply elem_of_singleton.
Qed.

End coverage.

(** An instance of the size theorem on the scenario of the spec. *)
Lemma chunks_are_nonempty_witness :
  ∃ plan, chunk_creation_loop (create_df example_walk) 1 = Ok plan ∧ plan ≠ [] ∧
          Forall (λ p, p.2 ≠ [] ∧ chunk_ids p.2 ≠ ∅) plan.
Proof.
  apply (chunks_are_nonempty (create_df example_walk) 1); [|lia].
  intros H. vm_compute in H. discriminate H.
Defined.

(** ** The order of the groups *)

Section group_order.

Implicit Types (df : DataFrame) (seen ids : list string) (c : list Group).

Lemma first_encounter_from_seen seen ids rest :
  Forall (λ id, id ∈ seen) ids →
  first_encounter_from seen (ids ++ rest) = first_encounter_from seen rest.
Proof.
  induction 1 as [|id ids Hid _ IH]; [done|].
  cbn [app first_encounter_from]. by rewrite decide_True.
Qed.

(** The rows of one group contribute their key once. *)
Lemma first_encounter_from_group seen k (rs : list Row) rest :
  k ∉ seen → rs ≠ [] → Forall (λ r, audio_id r = k) rs →
  first_encounter_from seen ((audio_id <$> rs) ++ rest) =
    k :: first_encounter_from (k :: seen) rest.
Proof.
  intros Hk Hne Hrs. destruct rs as [|r rs]; [done|].
  apply Forall_cons in Hrs as [Hr Hrs].
  rewrite fmap_cons, Hr. cbn [app first_encounter_from].
  rewrite decide_False by done. f_equal.
  apply first_encounter_from_seen, Forall_fmap.
  eapply Forall_impl; [exact Hrs|]. intros r' Hr'. cbn. rewrite Hr'. left.
Qed.

Lemma first_encounter_from_rows_of c : ∀ seen,
  Forall well_grouped c → NoDup c.*1 → (∀ k, k ∈ c.*1 → k ∉ seen) →
  first_encounter_from seen (audio_id <$> rows_of c) = c.*1.
Proof.
  induction c as [|g c IH]; intros seen Hwg Hnd Hseen; [done|].
  apply Forall_cons in Hwg as [[Hne Hg] Hwg].
  rewrite fmap_cons in Hnd. apply NoDup_cons in Hnd as [Hfresh Hnd].
  rewrite rows_of_cons, fmap_app, fmap_cons.
  rewrite (first_encounter_from_group seen g.1) by (try done; apply Hseen; left).
  f_equal. apply IH; [done..|].
  intros k Hk [->|Hin]%elem_of_cons; [done|].
  apply (Hseen k); [by right|done].
Qed.

Lemma first_encounter_from_elem_of ids : ∀ seen x,
  x ∈ first_encounter_from seen ids ↔ x ∈ ids ∧ x ∉ seen.
Proof.
  induction ids as [|id ids IH]; intros seen x; cbn [first_encounter_from].
  - split; [by intros ?%elem_of_nil | by intros [?%elem_of_nil _]].
  - destruct (decide (id ∈ seen)) as [Hid|Hid].
    + rewrite IH, elem_of_cons. split.
      * intros [Hx Hseen]. split; [by right|done].
      * intros [[->|Hx] Hseen]; [done|by split].
    + rewrite elem_of_cons, IH, (elem_of_cons ids). split.
      * intros [->|[Hx Hseen]]; [by split; [left|]|].
        split; [by right|]. intros Hn. apply Hseen. by right.
      * intros [[->|Hx] Hseen]; [by left|].
        destruct (decide (x = id)) as [->|Hne]; [by left|]. right.
        split; [done|]. by intros [->|?]%elem_of_cons.
Qed.

Lemma first_encounter_from_NoDup ids : ∀ seen, NoDup (first_encounter_from seen ids).
Proof.
  induction ids as [|id ids IH]; intros seen; cbn [first_encounter_from].
  - constructor.
  - destruct (decide (id ∈ seen)); [done|]. constructor; [|done].
    rewrite first_encounter_from_elem_of. intros [_ Hn]. apply Hn. left.
Qed.

(** The sorted keys hold the ids of the frame once each, in strictly
    ascending order. *)
Lemma sorted_ids_first_encounter df :
  sorted_ids df ≡ₚ first_encounter (audio_id <$> df).
Proof.
  apply NoDup_Permutation;
    [apply sorted_ids_NoDup | apply first_encounter_from_NoDup |].
  intros x. rewrite sorted_ids_elem_of. unfold first_encounter.
  rewrite first_encounter_from_elem_of. split; [|by intros [? _]].
  intros Hx. split; [done|]. apply not_elem_of_nil.
Qed.

Lemma StronglySorted_strict (l : list string) :
  StronglySorted String.le l → NoDup l → StronglySorted (strict String.le) l.
Proof.
  induction 1 as [|x l Hl IH Hx]; intros Hnd; [constructor|].
  apply NoDup_cons in Hnd as [Hfresh Hnd]. constructor; [by apply IH|].
  rewrite Forall_forall in Hx. apply Forall_forall. intros y Hy.
  apply strict_spec_alt. split; [by apply Hx|]. by intros ->.
Qed.

(** A full chunk is the slice of the groups at its index. *)
Lemma chunk_slice {A} (n : nat) (full : list (list A)) :
  ∀ (lst : list A) (i : nat) (l : list A),
  Forall (λ l', length l' = n) full → (length lst ≤ n)%nat →
  (full ++ [lst]) !! i = Some l →
  l = take n (drop (i * n) (mjoin (full ++ [lst]))).
Proof.
  induction full as [|f full IH]; intros lst i l Hfull Hlst Hc.
  - apply list_lookup_singleton_Some in Hc as [-> <-].
    cbn. rewrite app_nil_r. by rewrite take_ge.
  - apply Forall_cons in Hfull as [Hf Hfull].
    change ((f :: full) ++ [lst]) with (f :: (full ++ [lst])) in *.
    rewrite mjoin_cons. destruct i as [|i]; cbn in Hc.
    + injection Hc as <-. rewrite Nat.mul_0_l, drop_0. by rewrite take_app_length'.
    + replace (S i * n) with (length f + i * n) by lia.
      rewrite drop_app_add. by apply IH.
Qed.

(** C5 (amended). For every frame of items, the chunk creation loop
    processes the groups in ascending order of their group ids, the order
    in which [groupby] yields them, whatever the order in which the ids are
    met in the item sequence: the sequence of groups laid out across the
    chunks is strictly ascending and holds the ids of the first-encounter
    sequence, each once; the chunk of index [i] holds the groups of the
    positions [i * chunk_size] and following of that ascending sequence (a
    plan exists only for a chunk size of at least one); and within a group
    the items keep their input order: the rows of a chunk with a given
    group id are the rows of the frame with that id, in the order of the
    frame. *)
Theorem groups_in_ascending_order df chunk_size :
  match chunk_creation_loop df chunk_size with
  | Ok plan =>
      StronglySorted (strict String.le) (plan_group_order plan) ∧
      plan_group_order plan ≡ₚ first_encounter (audio_id <$> df) ∧
      (1 ≤ chunk_size)%Z ∧
      (∀ i p, plan !! i = Some p →
              first_encounter (audio_id <$> p.2) =
                take (Z.to_nat chunk_size)
                     (drop (i * Z.to_nat chunk_size) (plan_group_order plan))) ∧
      (∀ i p k, plan !! i = Some p → k ∈ chunk_ids p.2 →
                filter (λ r, audio_id r = k) p.2 =
                  filter (λ r, audio_id r = k) df)
  | Raise e => loop_raises df chunk_size e
  end.
Proof.
  destruct (chunk_creation_loop df chunk_size) as [plan|e] eqn:Hloop;
    [|by apply chunk_creation_loop_raise in Hloop].
  assert (plan_group_order plan = sorted_ids df) as Horder.
  { unfold plan_group_order, first_encounter.
    rewrite (plan_rows _ _ _ Hloop), first_encounter_from_rows_of.
    - apply groups_of_keys.
    - apply groups_of_well_grouped.
    - rewrite groups_of_keys. apply sorted_ids_NoDup.
    - intros k _. apply not_elem_of_nil. }
  rewrite Horder.
  destruct (chunk_creation_loop_Ok_chunks _ _ _ Hloop)
    as (full & lst & -> & Hjoin & Hlst & Hcs & Hfull & Hlast).
  split; [|split; [|split; [done|split]]].
  - apply StronglySorted_strict; [apply sorted_ids_sorted | apply sorted_ids_NoDup].
  - apply sorted_ids_first_encounter.
  - intros i p Hp.
    destruct (chunks_of_frame _ _ Hjoin) as [Hwg _].
    apply plan_of_lookup in Hp as (c & Hc & ->). cbn [snd].
    destruct (Hwg c) as [Hwgc Hndc]; [apply list_elem_of_lookup; eauto|].
    unfold first_encounter. rewrite first_encounter_from_rows_of; [|done..|].
    2:{ intros k _. apply not_elem_of_nil. }
    rewrite <- groups_of_keys, <- Hjoin, <- fmap_drop, <- fmap_take. f_equal.
    apply chunk_slice; [|lia|done].
    eapply Forall_impl; [exact Hfull|]. cbn. lia.
  - intros i p k (c & Hc & ->)%plan_of_lookup. cbn [snd].
    apply (chunk_keeps_group_rows df (full ++ [lst])); [done|].
    apply list_elem_of_lookup; eauto.
Qed.

(** C5 as stated fails on a scan that meets group [B] before group [A]:
    the first-encounter order is [B], [A], and the plan puts [A] into
    [partition0] and [B] into [partition1]. *)
Lemma groups_not_in_first_encounter_order :
  first_encounter (audio_id <$> create_df unsorted_walk) = ["B"; "A"] ∧
  partition_plan unsorted_walk 1 =
    Ok [("partition0", [mkRow "A/a.flac" "A" "R"]);
        ("partition1", [mkRow "B/b.flac" "B" "R"])] ∧
  ¬ (∀ df chunk_size,
       match chunk_creation_loop df chunk_size with
       | Ok plan => plan_group_order plan = first_encounter (audio_id <$> df)
       | Raise e => loop_raises df chunk_size e
       end).
Proof.
  split; [by vm_compute|]. split; [by vm_compute|]. intros H.
  specialize (H (create_df unsorted_walk) 1%Z).
  assert (chunk_creation_loop (create_df unsorted_walk) 1 =
    Ok [("partition0", [mkRow "A/a.flac" "A" "R"]);
        ("partition1", [mkRow "B/b.flac" "B" "R"])]) as Heq by (by vm_compute).
  rewrite Heq in H. vm_compute in H. discriminate H.
Qed.

(** Different indices give different chunk names, so the [DatasetDict]
    built from [datasets] keeps every chunk. *)
Lemma chunk_name_inj : Inj (=) (=) chunk_name.
Proof.
  intros i j Hij. unfold chunk_name in Hij.
  by apply (inj (String.app "partition")), (inj pretty) in Hij.
Qed.

(** C8. On the three items of the scenario with chunk size [1] the plan is
    the chunk [partition0] with the two items of group [A] followed by the
    chunk [partition1] with the item of group [B]; and in every plan the
    chunk at index [i] is named [partition] followed by [i] in decimal,
    the indices running from [0], so that no two chunks share a name. *)
Theorem scenario_plan :
  partition_plan example_walk 1 =
    Ok [("partition0", [mkRow "A/F01_x.flac" "A" "F01";
                        mkRow "A/F01_y.flac" "A" "F01"]);
        ("partition1", [mkRow "B/real.flac" "B" "R"])] ∧
  (∀ df chunk_size,
     match chunk_creation_loop df chunk_size with
     | Ok plan => plan.*1 = chunk_name <$> seq 0 (length plan) ∧ NoDup plan.*1
     | Raise e => loop_raises df chunk_size e
     end) ∧
  chunk_name <$> seq 0 12 =
    ["partition0"; "partition1"; "partition2"; "partition3"; "partition4";
     "partition5"; "partition6"; "partition7"; "partition8"; "partition9";
     "partition10"; "partition11"].
Proof.
  split; [by vm_compute|]. split; [|by vm_compute].
  intros df chunk_size.
  destruct (chunk_creation_loop df chunk_size) as [plan|e] eqn:Hloop;
    [|by apply chunk_creation_loop_raise in Hloop].
  apply chunk_creation_loop_Ok in Hloop as (_ & _ & ->).
  rewrite plan_of_names. unfold plan_of.
  rewrite length_imap. split; [done|].
  apply NoDup_fmap_2; [apply chunk_name_inj | apply NoDup_seq].
Qed.

End group_order.

(** ** Tests and slices of strings *)

Section strings.

Implicit Types (s t p a b r : string) (c : Ascii.ascii).

Lemma string_app_cons c s t : String c s +:+ t = String c (s +:+ t).
Proof. done. Qed.

Lemma string_app_nil_r s : s +:+ "" = s.
Proof. induction s as [|c s IH]; [done|].
  rewrite ?string_app_cons.
  cbn [String.length String.substring Nat.add]. by rewrite IH.
Qed.

Lemma string_app_assoc s t p : (s +:+ t) +:+ p = s +:+ (t +:+ p).
Proof. induction s as [|c s IH]; [done|].
  rewrite ?string_app_cons.
  cbn [String.length String.substring Nat.add]. by rewrite IH.
Qed.

Lemma string_length_app s t :
  String.length (s +:+ t) = String.length s + String.length t.
Proof. induction s as [|c s IH]; [done|].
  rewrite ?string_app_cons.
  cbn [String.length String.substring Nat.add]. by rewrite IH.
Qed.

Lemma substring_0_0 s : String.substring 0 0 s = "".
Proof. by destruct s. Qed.

Lemma substring_app_l a b (n : nat) :
  String.substring 0 (String.length a + n) (a +:+ b) = a +:+ String.substring 0 n b.
Proof. induction a as [|c a IH]; [done|].
  rewrite ?string_app_cons.
  cbn [String.length String.substring Nat.add]. by rewrite IH.
Qed.

Lemma substring_app_r a b (n : nat) :
  String.substring (String.length a) n (a +:+ b) = String.substring 0 n b.
Proof. induction a as [|c a IH]; [done|].
  rewrite ?string_app_cons.
  cbn [String.length String.substring Nat.add]. by rewrite IH.
Qed.

Lemma substring_whole s : String.substring 0 (String.length s) s = s.
Proof. induction s as [|c s IH]; [done|].
  rewrite ?string_app_cons.
  cbn [String.length String.substring Nat.add]. by rewrite IH.
Qed.

(** A string is the slice before a position followed by the slice from
    it. *)
Lemma substring_split s : ∀ n : nat,
  String.substring 0 n s +:+ String.substring n (String.length s - n) s = s.
Proof.
  induction s as [|c s IH]; intros [|n]; try done.
  - cbn [String.length String.substring Nat.sub].
    rewrite substring_whole. done.
  - cbn [String.length String.substring Nat.sub].
    by rewrite string_app_cons, IH.
Qed.

(** [str.endswith]: the strings that end with [p] are those of the form
    [pre + p]. *)
Lemma endswith_iff s p : Py.endswith s p = true ↔ ∃ pre, s = pre +:+ p.
Proof.
  unfold Py.endswith. rewrite andb_true_iff, bool_decide_eq_true, String.eqb_eq.
  split.
  - intros [Hlen Hsub].
    exists (String.substring 0 (String.length s - String.length p) s).
    etrans; [symmetry; apply (substring_split s (String.length s - String.length p))|].
    f_equal.
    replace (String.length s - (String.length s - String.length p))
      with (String.length p) by lia.
    done.
  - intros [pre ->]. rewrite string_length_app. split; [lia|].
    replace (String.length pre + String.length p - String.length p)
      with (String.length pre) by lia.
    by rewrite substring_app_r, substring_whole.
Qed.

(** [str.startswith]: the strings that start with [p] are those of the
    form [p + rest]. *)
Lemma startswith_iff s p : Py.startswith s p = true ↔ ∃ rest, s = p +:+ rest.
Proof.
  unfold Py.startswith. revert s. induction p as [|c p IH]; intros s.
  - split; [by exists s|]. intros _. by destruct s.
  - destruct s as [|c' s]; rewrite ?string_app_cons; cbn [String.prefix].
    + split; [done|by intros [? ?]].
    + destruct (Ascii.ascii_dec c c') as [->|Hne].
      * rewrite IH. split; [by intros [rest ->]; exists rest|].
        intros [rest [= ->]]. by exists rest.
      * split; [done|]. by intros [rest [= ? _]].
Qed.

(** The characters of a concatenation are those of its parts. *)
Lemma len_app s t : Py.len (s +:+ t) = Py.len s + Py.len t.
Proof.
  induction s as [|c s IH]; [done|]. rewrite string_app_cons.
  cbn [Py.len]. destruct (Py.is_continuation c); [done|]. by rewrite IH.
Qed.

(** Cutting after [n] characters of a string that has them leaves a
    prefix of [n] characters that ends where a character ends. *)
Lemma chars_to_first_chars s : ∀ n : nat,
  (n ≤ Py.len s)%nat → first_chars n s (Py.chars_to s n).
Proof.
  unfold first_chars.
  induction s as [|c s IH]; intros n Hn; cbn [Py.len Py.chars_to] in *.
  - exists "". by replace n with 0 by lia.
  - destruct (Py.is_continuation c) eqn:Hc.
    + destruct (IH n Hn) as (rest & Hs & Hlen & Hrest). exists rest.
      rewrite string_app_cons. cbn [Py.len]. rewrite Hc. by rewrite <- Hs.
    + destruct n as [|n].
      * exists (String c s). done.
      * destruct (IH n ltac:(lia)) as (rest & Hs & Hlen & Hrest). exists rest.
        rewrite string_app_cons. cbn [Py.len]. rewrite Hc, Hlen.
        by rewrite <- Hs.
Qed.

End strings.

(** ** Exclusion, labels and extensions *)

Section items.

Implicit Types (walk : Walk) (df : DataFrame) (file : string).

(** What holds of every row of the frame holds of every row of every
    chunk. *)
Lemma plan_rows_Forall (P : Row → Prop) df chunk_size plan :
  chunk_creation_loop df chunk_size = Ok plan →
  Forall P df → Forall (λ p, Forall P p.2) plan.
Proof.
  intros Hloop HP. rewrite Forall_forall in HP.
  apply Forall_forall. intros p Hp. apply Forall_forall. intros r Hr.
  apply HP. by eapply plan_rows_elem_of.
Qed.

Lemma partition_plan_Forall (P : Row → Prop) walk chunk_size :
  Forall P (create_df walk) →
  match partition_plan walk chunk_size with
  | Ok plan => Forall (λ p, Forall P p.2) plan
  | Raise e => loop_raises (create_df walk) chunk_size e
  end.
Proof.
  intros HP. unfold partition_plan.
  destruct (chunk_creation_loop _ _) as [plan|e] eqn:Hloop.
  - by eapply plan_rows_Forall.
  - by apply chunk_creation_loop_raise in Hloop.
Qed.

(** Every row of the frame is the record of a retained [.flac] file. *)
Lemma create_df_rows walk :
  Forall (λ r, ∃ item, item ∈ flac_files walk ∧ ¬ excluded (audio_id_of item) ∧
                       r = row_of_item item)
         (create_df walk).
Proof.
  rewrite create_df_items. apply Forall_forall. intros r Hr.
  apply list_elem_of_fmap in Hr as (item & -> & Hitem).
  apply list_elem_of_filter in Hitem as [Hex Hitem]. eauto.
Qed.

(** The marker of a fake: the first three characters of the name, which
    start with [F0]. *)
Lemma label_marker file :
  Py.endswith file ".flac" = true → Py.startswith file "F0" = true →
  first_chars 3 file (Py.chars_to file 3) ∧
  Py.startswith (Py.chars_to file 3) "F0" = true.
Proof.
  intros [stem Hstem]%endswith_iff [rest Hrest]%startswith_iff. split.
  - apply chars_to_first_chars. rewrite Hstem, len_app. cbn. lia.
  - rewrite Hrest. apply startswith_iff. exists (Py.chars_to rest 1). done.
Qed.

(** C6. Every item whose group id starts with the reserved prefix [SSB] is
    dropped before grouping: the group id of every row of the frame, and so
    of every row of every chunk, is the one derived from the path of the
    row and does not start with [SSB], so no chunk holds a file of an
    excluded group; and the group ids of the frame, which [nunique] counts,
    are those of the scanned [.flac] files that are not excluded. A file
    of the directory [SSB0001] yields no row, no chunk entry and no
    count. *)
Theorem excluded_items_dropped :
  (∀ walk, Forall retained_row (create_df walk)) ∧
  (∀ walk chunk_size,
     match partition_plan walk chunk_size with
     | Ok plan => Forall (λ p, Forall retained_row p.2) plan
     | Raise e => loop_raises (create_df walk) chunk_size e
     end) ∧
  (∀ walk,
     audio_id <$> create_df walk =
       filter (λ id, ¬ excluded id) (audio_id_of <$> flac_files walk)) ∧
  (∀ walk,
     match unique_audio_ids (create_df walk) with
     | Ok n =>
         n = Z.of_nat (size (list_to_set (C:=gset string)
               (filter (λ id, ¬ excluded id) (audio_id_of <$> flac_files walk))))
     | Raise e => e = KeyError "audio_id" ∧ create_df walk = []
     end) ∧
  (excluded (audio_id_of ("SSB0001", "a.flac")) ∧
   create_df excluded_walk = [mkRow "p225/b.flac" "p225" "R"] ∧
   unique_audio_ids (create_df excluded_walk) = Ok 1%Z ∧
   partition_plan excluded_walk 1 =
     Ok [("partition0", [mkRow "p225/b.flac" "p225" "R"])]).
Proof.
  assert (∀ walk, Forall retained_row (create_df walk)) as Hrows.
  { intros walk. eapply Forall_impl; [apply create_df_rows|].
    intros r (item & _ & Hex & ->). done. }
  split; [done|]. split; [|split; [|split]].
  - intros walk chunk_size. by apply partition_plan_Forall.
  - apply create_df_ids.
  - intros walk. unfold unique_audio_ids, column_audio_id.
    destruct (create_df walk) as [|r df] eqn:Hdf; [done|].
    cbn [mbind result_bind]. by rewrite <- Hdf, create_df_ids.
  - by vm_compute.
Qed.

(** C7. The category label of every retained item is a function of the
    file name of its payload alone: every row of the frame of [create_df]
    is the record of a scanned [.flac] file and carries the label of the
    name of that file, which is the first three characters of the name
    when the name starts with the fake-audio marker prefix [F0] (a prefix
    of the name that holds three characters, starts with [F0] and ends
    where a character ends), and [R] otherwise. The files [F01_x.flac] and
    [F01_y.flac] have the label [F01], the file [real.flac] the label [R];
    a third character of two bytes is kept whole. *)
Theorem label_from_file_name :
  (∀ walk,
     Forall (λ r, ∃ item, item ∈ flac_files walk ∧
                          audio r = PosixPath.join item.1 item.2 ∧
                          real_or_fake r = label_of_file_name item.2 ∧
                          if Py.startswith item.2 "F0" then
                            first_chars 3 item.2 (real_or_fake r) ∧
                            Py.startswith (real_or_fake r) "F0" = true
                          else real_or_fake r = "R")
            (create_df walk)) ∧
  create_df example_walk =
    [mkRow "A/F01_x.flac" "A" "F01"; mkRow "A/F01_y.flac" "A" "F01";
     mkRow "B/real.flac" "B" "R"] ∧
  create_df accented_walk =
    [mkRow "A/F0é_1.flac" "A" "F0é"; mkRow "A/F0.flac" "A" "F0.";
     mkRow "A/é.flac" "A" "R"].
Proof.
  split; [|split; by vm_compute].
  intros walk. eapply Forall_impl; [apply create_df_rows|].
  intros r ([root file] & Hitem & _ & ->).
  exists (root, file). split; [done|]. split; [done|]. split; [done|].
  cbn [real_or_fake row_of_item snd].
  apply flac_files_elem_of in Hitem as [Hext _].
  unfold label_of_file_name.
  destruct (Py.startswith file "F0") eqn:Hfake; [|done].
  by apply label_marker.
Qed.

(** C10. Only the files whose names end with [.flac] become items: the
    scan restricted to its [.flac] files leaves the same frame and the same
    printed lines, so a file of another extension adds no record and no
    output; every row of the frame, and so every row of every chunk, is the
    record of a file of the scan whose name ends with [.flac]. *)
Theorem only_flac_files_become_items :
  (∀ walk, create_df_run (flac_only walk) = create_df_run walk) ∧
  (∀ walk,
     Forall (λ r, ∃ root files file,
                    (root, files) ∈ walk ∧ file ∈ files ∧
                    Py.endswith file ".flac" = true ∧
                    audio r = PosixPath.join root file)
            (create_df walk)) ∧
  (∀ walk chunk_size,
     match partition_plan walk chunk_size with
     | Ok plan =>
         Forall (λ p, Forall (λ r, ∃ root files file,
                                     (root, files) ∈ walk ∧ file ∈ files ∧
                                     Py.endswith file ".flac" = true ∧
                                     audio r = PosixPath.join root file) p.2)
                plan
     | Raise e => loop_raises (create_df walk) chunk_size e
     end) ∧
  create_df_run excluded_walk =
    mkScan [mkRow "p225/b.flac" "p225" "R"] ["Skipping SSB0001"].
Proof.
  assert (∀ walk,
     Forall (λ r, ∃ root files file,
                    (root, files) ∈ walk ∧ file ∈ files ∧
                    Py.endswith file ".flac" = true ∧
                    audio r = PosixPath.join root file)
            (create_df walk)) as Hrows.
  { intros walk. eapply Forall_impl; [apply create_df_rows|].
    intros r ([root file] & Hitem & _ & ->).
    apply flac_files_elem_of in Hitem as (Hext & files & Hwalk & Hfile).
    exists root, files, file. done. }
  split; [|split; [done|split; [|by vm_compute]]].
  - intros walk. unfold create_df_run.
    by rewrite !create_df_run_acc, flac_files_flac_only.
  - intros walk chunk_size. by apply partition_plan_Forall.
Qed.

End items.

(** * Further properties of the notebook *)

(** ** All outcomes of the divisor search *)

Section divisor_outcomes.
Local Open Scope Z_scope.

(** For all integers, also zero or negative ones, the three ways in which
    [find_best_chunk_size] ends: [ZeroDivisionError] exactly when the scan
    starts at the candidate [0]; the [ValueError] exactly when the range
    holds neither [0] nor a divisor; and the result [d] exactly when [d] is
    a non-zero divisor of the range above which the range holds neither
    [0] nor a divisor. *)
Theorem find_best_chunk_size_outcomes total_ids min_size max_size :
  (find_best_chunk_size total_ids min_size max_size = Raise ZeroDivisionError
     ↔ min_size ≤ 0 ∧ max_size = 0) ∧
  (find_best_chunk_size total_ids min_size max_size = Raise no_suitable_chunk_size
     ↔ ∀ d, min_size ≤ d ≤ max_size → d ≠ 0 ∧ ¬ (d | total_ids)) ∧
  (∀ d, find_best_chunk_size total_ids min_size max_size = Ok d
     ↔ min_size ≤ d ≤ max_size ∧ d ≠ 0 ∧ (d | total_ids) ∧
       ∀ d', d < d' ≤ max_size → d' ≠ 0 ∧ ¬ (d' | total_ids)).
Proof.
  pose proof (find_best_chunk_size_spec total_ids min_size max_size) as H.
  pose proof (find_best_chunk_size_zero_division total_ids min_size max_size) as Hz.
  split; [|split].
  - split; [done|]. intros [Hmin ->]. unfold find_best_chunk_size.
    by rewrite range_down_cons by lia.
  - split.
    + intros Heq. rewrite Heq in H. by destruct H as [[? _]|[_ ?]].
    + intros Hno. destruct (find_best_chunk_size _ _ _) as [d|e].
      * destruct H as (Hr & _ & Hdiv & _). by destruct (Hno d Hr).
      * destruct H as [(-> & Hr & _)|(-> & _)]; [|done].
        by destruct (Hno 0 Hr).
  - intros d. split.
    + intros Heq. by rewrite Heq in H.
    + intros (Hr & Hd0 & Hdiv & Hlast).
      destruct (find_best_chunk_size _ _ _) as [d2|e].
      * destruct H as (Hr2 & Hd20 & Hdiv2 & Hlast2). f_equal.
        destruct (Z.lt_trichotomy d d2) as [Hlt|[Heq|Hgt]]; [|done|].
        -- by destruct (Hlast d2 ltac:(lia)).
        -- by destruct (Hlast2 d ltac:(lia)).
      * exfalso. destruct H as [(_ & Hr0 & Hno)|(_ & Hno)].
        -- destruct (decide (0 < d)) as [Hpos|Hneg]; [by apply (Hno d); [lia|]|].
           by destruct (Hlast 0 ltac:(lia)).
        -- by destruct (Hno d Hr).
Qed.

(** With a positive upper bound the scan never reaches [0]: a returned
    size is at least [1], and the search fails, with its [ValueError],
    only when the lower bound is above [1]. *)
Theorem find_best_chunk_size_positive total_ids min_size max_size :
  1 ≤ max_size →
  match find_best_chunk_size total_ids min_size max_size with
  | Ok d => 1 ≤ d
  | Raise e => e = no_suitable_chunk_size ∧ 1 < min_size
  end.
Proof.
  intros Hmax.
  pose proof (find_best_chunk_size_spec total_ids min_size max_size) as H.
  destruct (find_best_chunk_size _ _ _) as [d|e].
  - destruct H as (Hr & Hd0 & _ & Hlast).
    destruct (decide (1 ≤ d)) as [|Hle]; [done|].
    destruct (Hlast 1 ltac:(lia)) as [_ Hn]. destruct Hn. apply Z.divide_1_l.
  - destruct H as [(_ & _ & Hno)|(-> & Hno)].
    + destruct (Hno 1 ltac:(lia)). apply Z.divide_1_l.
    + split; [done|]. destruct (decide (1 < min_size)) as [|Hle]; [done|].
      destruct (Hno 1 ltac:(lia)) as [_ Hn]. destruct Hn. apply Z.divide_1_l.
Qed.

Lemma find_best_chunk_size_positive_witness :
  match find_best_chunk_size 35433 90 110 with
  | Ok d => 1 ≤ d
  | Raise e => e = no_suitable_chunk_size ∧ 1 < 90
  end.
Proof. apply (find_best_chunk_size_positive 35433 90 110). lia. Defined.

(** The number of chunks computed from a returned size is exact:
    [num_chunks * chunk_size] gives back the number of groups. *)
Theorem num_chunks_exact total_ids min_size max_size chunk_size :
  find_best_chunk_size total_ids min_size max_size = Ok chunk_size →
  num_chunks total_ids chunk_size * chunk_size = total_ids.
Proof.
  intros Heq.
  pose proof (find_best_chunk_size_spec total_ids min_size max_size) as H.
  rewrite Heq in H. destruct H as (_ & Hd0 & [k ->] & _).
  unfold num_chunks. by rewrite Z.div_mul.
Qed.

Lemma num_chunks_exact_witness : num_chunks 35433 93 * 93 = 35433.
Proof. apply (num_chunks_exact 35433 90 110 93). by vm_compute. Defined.

(** The cell with the bounds [90] and [110] of the notebook lets no
    exception out, whatever the number of ids: it either binds a chunk size
    of the range that divides the number, with the exact number of chunks,
    and prints both, or it prints the message of the [ValueError], which
    happens exactly when no size of the range divides the number. *)
Theorem chunk_size_cell_total unique_audio_ids :
  ∃ out, chunk_size_cell unique_audio_ids = Ok out ∧
    match cell_sizes out with
    | Some (chunk_size, n) =>
        90 ≤ chunk_size ≤ 110 ∧ n * chunk_size = unique_audio_ids ∧
        cell_printed out =
          "Chunk Size: " +:+ pretty chunk_size +:+
          ", Number of Chunks: " +:+ pretty n
    | None =>
        cell_printed out = "No suitable chunk size found within the given range." ∧
        ∀ d, 90 ≤ d ≤ 110 → ¬ (d | unique_audio_ids)
    end.
Proof.
  unfold chunk_size_cell.
  pose proof (find_best_chunk_size_spec unique_audio_ids
                desired_chunk_size_min desired_chunk_size_max) as H.
  unfold desired_chunk_size_min, desired_chunk_size_max in *.
  destruct (find_best_chunk_size _ _ _) as [d|e].
  - destruct H as (Hr & Hd0 & [q ->] & _). unfold Py.floordiv.
    destruct (Z.eqb_spec d 0) as [|_]; [done|]. cbn [mbind result_bind].
    eexists. split; [done|]. cbn [cell_sizes cell_printed].
    split; [done|]. split; [|done]. by rewrite Z.div_mul.
  - destruct H as [(_ & Hr & _)|(-> & Hno)]; [lia|].
    eexists. split; [done|]. cbn [cell_sizes cell_printed]. split; [done|].
    intros d Hd. by destruct (Hno d Hd).
Qed.

End divisor_outcomes.

(** ** Items and groups in the plan *)

Section plan_items.

Implicit Types (df : DataFrame) (c : list Group) (k : string).

(** Grouping a list by the distinct keys of its rows rearranges it. *)
Lemma join_filter_by_key (ks : list string) : ∀ l : list Row,
  NoDup ks → (∀ r, r ∈ l → audio_id r ∈ ks) →
  mjoin ((λ k, filter (λ r, audio_id r = k) l) <$> ks) ≡ₚ l.
Proof.
  induction ks as [|k ks IH]; intros l Hnd Hin.
  - destruct l as [|r l]; [done|]. exfalso.
    apply (not_elem_of_nil (audio_id r)), Hin. left.
  - apply NoDup_cons in Hnd as [Hk Hnd]. rewrite fmap_cons, mjoin_cons.
    etrans; [|apply (filter_app_complement (λ r, audio_id r = k) l)].
    apply Permutation_app_head.
    assert ((λ k', filter (λ r, audio_id r = k') l) <$> ks =
            (λ k', filter (λ r, audio_id r = k')
                     (filter (λ r, audio_id r ≠ k) l)) <$> ks) as ->.
    { apply Forall_fmap_ext, Forall_forall. intros k' Hk'.
      rewrite list_filter_filter. apply list_filter_iff. intros r. split.
      - intros ->. split; [done|]. by intros ->.
      - by intros [? _]. }
    apply IH; [done|]. intros r [Hr Hrl]%list_elem_of_filter.
    by apply Hin, elem_of_cons in Hrl as [?|?].
Qed.

Lemma rows_of_groups_of_Permutation df : rows_of (groups_of df) ≡ₚ df.
Proof.
  unfold rows_of, groups_of. rewrite <- list_fmap_compose.
  apply (join_filter_by_key (sorted_ids df) df (sorted_ids_NoDup df)).
  intros r Hr. by apply sorted_ids_elem_of, list_elem_of_fmap_2.
Qed.

(** Every item of the frame lies in the plan exactly once: the rows of all
    chunks together are a rearrangement of the rows of the frame. *)
Theorem plan_keeps_every_item df chunk_size :
  match chunk_creation_loop df chunk_size with
  | Ok plan => mjoin plan.*2 ≡ₚ df
  | Raise e => loop_raises df chunk_size e
  end.
Proof.
  destruct (chunk_creation_loop df chunk_size) as [plan|e] eqn:Hloop;
    [|by apply chunk_creation_loop_raise in Hloop].
  rewrite (plan_rows _ _ _ Hloop). apply rows_of_groups_of_Permutation.
Qed.

(** No group is split, and no group is reordered: a chunk that holds a
    group id holds all rows of that id, in the order of the frame. *)
Theorem groups_stay_whole df chunk_size :
  match chunk_creation_loop df chunk_size with
  | Ok plan =>
      Forall (λ p, ∀ k, k ∈ chunk_ids p.2 →
                        filter (λ r, audio_id r = k) p.2 =
                          filter (λ r, audio_id r = k) df)
             plan
  | Raise e => loop_raises df chunk_size e
  end.
Proof.
  destruct (chunk_creation_loop df chunk_size) as [plan|e] eqn:Hloop;
    [|by apply chunk_creation_loop_raise in Hloop].
  destruct (chunk_creation_loop_Ok_chunks _ _ _ Hloop)
    as (full & lst & -> & Hjoin & _).
  apply Forall_forall.
  intros p (i & (c & Hc & ->)%plan_of_lookup)%list_elem_of_lookup k. cbn [snd].
  apply (chunk_keeps_group_rows df (full ++ [lst])); [done|].
  apply list_elem_of_lookup; eauto.
Qed.

End plan_items.

(** ** The number of chunks *)

Section chunk_count.

Implicit Types (df : DataFrame).

(** The groups of the frame counted chunk by chunk. *)
Lemma group_count_chunks df chunk_size (full : list (list Group)) (lst : list Group) :
  mjoin (full ++ [lst]) = groups_of df →
  Forall (λ c, Z.of_nat (length c) = chunk_size) full →
  Z.of_nat (group_count df) =
    (Z.of_nat (length full) * chunk_size + Z.of_nat (length lst))%Z.
Proof.
  intros Hjoin Hfull. rewrite group_count_groups_of, <- Hjoin.
  rewrite join_app, mjoin_cons, app_nil_r, length_app, Nat2Z.inj_add. f_equal.
  clear Hjoin. induction Hfull as [|c full Hc _ IH]; [done|].
  rewrite mjoin_cons, length_app. cbn [length]. lia.
Qed.

Lemma unique_audio_ids_Ok df n :
  unique_audio_ids df = Ok n → df ≠ [] ∧ n = Z.of_nat (group_count df).
Proof.
  unfold unique_audio_ids, column_audio_id. destruct df as [|r df]; [done|].
  cbn [mbind result_bind]. by intros [= <-].
Qed.

(** For a chunk size [chunk_size ≥ 1] the plan has as many chunks as the
    number of groups divided by [chunk_size], rounded up. *)
Theorem plan_length df chunk_size :
  (1 ≤ chunk_size)%Z →
  match chunk_creation_loop df chunk_size with
  | Ok plan =>
      Z.of_nat (length plan) =
        ((Z.of_nat (group_count df) + chunk_size - 1) `div` chunk_size)%Z
  | Raise e => e = KeyError "audio_id" ∧ df = []
  end.
Proof.
  intros Hcs.
  destruct (chunk_creation_loop df chunk_size) as [plan|e] eqn:Hloop.
  2:{ apply chunk_creation_loop_raise in Hloop as [?|(_ & _ & ?)]; [done|lia]. }
  destruct (chunk_creation_loop_Ok_chunks _ _ _ Hloop)
    as (full & lst & -> & Hjoin & Hlst & _ & Hfull & Hlast).
  rewrite (group_count_chunks df chunk_size full lst) by done.
  unfold plan_of. rewrite length_imap, length_app. cbn [length].
  assert (0 < length lst) by (destruct lst; [done|cbn; lia]).
  apply (Z.div_unique_pos _ _ _ (Z.of_nat (length lst) - 1)); lia.
Qed.

Lemma plan_length_witness :
  match chunk_creation_loop (create_df example_walk) 1 with
  | Ok plan =>
      Z.of_nat (length plan) =
        ((Z.of_nat (group_count (create_df example_walk)) + 1 - 1) `div` 1)%Z
  | Raise e => e = KeyError "audio_id" ∧ create_df example_walk = []
  end.
Proof. apply (plan_length (create_df example_walk) 1). lia. Defined.

(** The two cells together: with a chunk size that the search returns for
    the number of distinct ids of the frame, under a positive upper bound,
    the loop builds exactly [num_chunks] chunks, and every chunk, the last
    one too, holds exactly [chunk_size] groups. *)
Theorem searched_chunk_size_fills_all_chunks df n min_size max_size chunk_size :
  unique_audio_ids df = Ok n →
  find_best_chunk_size n min_size max_size = Ok chunk_size →
  (1 ≤ max_size)%Z →
  ∃ plan, chunk_creation_loop df chunk_size = Ok plan ∧
          Z.of_nat (length plan) = num_chunks n chunk_size ∧
          Forall (λ p, Z.of_nat (group_count p.2) = chunk_size) plan.
Proof.
  intros [Hdf ->]%unique_audio_ids_Ok Hsearch Hmax.
  pose proof (find_best_chunk_size_spec (Z.of_nat (group_count df))
                min_size max_size) as Hspec.
  rewrite Hsearch in Hspec. destruct Hspec as (Hr & _ & [q Hq] & Hlast0).
  assert (1 ≤ chunk_size)%Z as Hpos.
  { destruct (decide (1 ≤ chunk_size)%Z) as [|Hle]; [done|].
    destruct (Hlast0 1%Z ltac:(lia)) as [_ Hn]. destruct Hn. apply Z.divide_1_l. }
  clear Hr Hlast0.
  destruct (chunk_creation_loop_chunks df chunk_size Hdf Hpos)
    as (full & lst & Hplan & Hjoin & Hlst & Hfull & Hlast).
  destruct (chunks_of_frame _ _ Hjoin) as [Hwg _].
  pose proof (group_count_chunks df chunk_size full lst Hjoin Hfull) as Hcount.
  assert (0 < length lst) by (destruct lst; [done|cbn; lia]).
  assert (Z.of_nat (length lst) = chunk_size) as Hfill.
  { assert (Z.of_nat (length lst)
            = (q - Z.of_nat (length full)) * chunk_size)%Z as Hrem by lia.
    destruct (decide (q - Z.of_nat (length full) ≤ 0)%Z); [nia|].
    destruct (decide (q - Z.of_nat (length full) = 1)%Z); [lia|nia]. }
  exists (plan_of (full ++ [lst])). split; [done|]. split.
  - unfold plan_of, num_chunks. rewrite length_imap, length_app. cbn [length].
    rewrite Hcount, Hfill.
    replace (Z.of_nat (length full) * chunk_size + chunk_size)%Z
      with ((Z.of_nat (length full) + 1) * chunk_size)%Z by lia.
    rewrite Z.div_mul by lia. lia.
  - apply Forall_forall.
    intros p (i & (c & Hc & ->)%plan_of_lookup)%list_elem_of_lookup. cbn [snd].
    assert (c ∈ full ++ [lst]) as Hin by (apply list_elem_of_lookup; eauto).
    destruct (Hwg c Hin) as [Hwgc Hndc]. rewrite group_count_rows_of by done.
    apply elem_of_app in Hin as [Hin|Hin%list_elem_of_singleton]; [|by subst].
    rewrite Forall_forall in Hfull. by apply Hfull.
Qed.

Lemma searched_chunk_size_fills_all_chunks_witness :
  ∃ plan, chunk_creation_loop (create_df example_walk) 2 = Ok plan ∧
          Z.of_nat (length plan) = num_chunks 2 2 ∧
          Forall (λ p, Z.of_nat (group_count p.2) = 2%Z) plan.
Proof.
  apply (searched_chunk_size_fills_all_chunks (create_df example_walk) 2 1 2 2);
    [by vm_compute | by vm_compute | lia].
Defined.

End chunk_count.

(** ** The state of the loop, iteration by iteration *)

Section loop_states.

Implicit Types (df : DataFrame) (G : list Group).

Lemma take_groups_of df (i : nat) :
  NoDup (take i (groups_of df)).*1 ∧ Forall well_grouped (take i (groups_of df)).
Proof.
  split.
  - rewrite fmap_take, groups_of_keys.
    eapply sublist_NoDup; [apply sorted_ids_NoDup | apply sublist_take].
  - apply Forall_take, groups_of_well_grouped.
Qed.

(** After any number of iterations the set [audio_ids_so_far] holds exactly
    the group ids of the rows of [current_chunk]; [chunk_index] is the
    number of chunks saved, which carry the names [partition0] up to
    [partition(chunk_index - 1)]; and for a chunk size [chunk_size ≥ 1] the
    open chunk holds at most [chunk_size] groups. *)
Theorem loop_invariant df chunk_size (i : nat) :
  match loop_state_after df chunk_size i with
  | Ok st =>
      audio_ids_so_far st = chunk_ids (current_chunk st) ∧
      chunk_index st = length (datasets st) ∧
      (datasets st).*1 = chunk_name <$> seq 0 (chunk_index st) ∧
      ((1 ≤ chunk_size)%Z →
       (Z.of_nat (size (audio_ids_so_far st)) ≤ chunk_size)%Z)
  | Raise e => loop_raises df chunk_size e
  end.
Proof.
  unfold loop_state_after. rewrite groupby_audio_id_eq.
  destruct df as [|r df]; [by left|]. cbn [mbind result_bind].
  set (G := groups_of (r :: df)).
  destruct (take_groups_of (r :: df) i) as [Hnd Hwg]. fold G in Hnd, Hwg.
  destruct (decide (1 ≤ chunk_size)%Z) as [Hpos|Hneg]; last first.
  { destruct (take i G) as [|g G']; [by cbn; intuition lia|].
    rewrite for_each_loop_body_nonpositive by lia.
    right. split; [done|]. split; [done|lia]. }
  rewrite for_each_loop_body by done.
  pose proof (group_run_concat chunk_size (take i G)) as Hconcat.
  set (gs := group_run chunk_size (take i G)) in *.
  rewrite <- Hconcat in Hnd, Hwg.
  apply Forall_app in Hwg as [_ Hwg].
  rewrite fmap_app in Hnd. apply NoDup_app in Hnd as (_ & _ & Hnd).
  cbn [loop_state_of audio_ids_so_far current_chunk chunk_index datasets].
  split; [by rewrite chunk_ids_rows_of|]. split; [by rewrite length_imap|].
  split; [apply plan_of_names|].
  intros Hcs. rewrite size_list_to_set, length_fmap by done.
  apply group_run_sizes, Hcs.
Qed.

(** The test [audio_id in audio_ids_so_far] never holds: the keys of
    [groupby] are distinct, so the loop skips no group. *)
Theorem loop_skips_no_group df chunk_size (i : nat) :
  match groupby_audio_id df, loop_state_after df chunk_size i with
  | Ok grouped, Ok st =>
      match grouped !! i with
      | Some g => g.1 ∉ audio_ids_so_far st
      | None => True
      end
  | Ok _, Raise e => e = CastError ∧ (chunk_size ≤ 0)%Z
  | Raise _, _ => df = []
  end.
Proof.
  unfold loop_state_after. rewrite groupby_audio_id_eq.
  destruct df as [|r df]; [done|]. cbn [mbind result_bind].
  set (G := groups_of (r :: df)).
  destruct (take_groups_of (r :: df) i) as [Hnd Hwg]. fold G in Hnd, Hwg.
  destruct (decide (1 ≤ chunk_size)%Z) as [Hpos|Hneg]; last first.
  { destruct (take i G) as [|g G'] eqn:Htake.
    - cbn [for_each]. destruct (G !! i); [|done]. apply not_elem_of_empty.
    - rewrite for_each_loop_body_nonpositive by lia. split; [done|lia]. }
  rewrite for_each_loop_body by done.
  destruct (G !! i) as [g|] eqn:Hg; [|done].
  cbn [loop_state_of audio_ids_so_far]. rewrite elem_of_list_to_set.
  intros Hin.
  assert (NoDup G.*1) as HndG
    by (unfold G; rewrite groups_of_keys; apply sorted_ids_NoDup).
  rewrite <- (take_drop_middle G i g Hg), fmap_app, fmap_cons in HndG.
  apply NoDup_app in HndG as (_ & Hdisj & _). apply (Hdisj g.1); [|left].
  rewrite <- (group_run_concat chunk_size (take i G)), fmap_app.
  apply elem_of_app. by right.
Qed.

(** The three ways in which the chunk creation loop ends: [KeyError]
    exactly on the frame without rows; [CastError] exactly on a frame with
    rows and a chunk size of [0] or less, where the loop passes no
    iteration, since the first one hands the empty chunk to [save_chunk];
    and a plan exactly on a frame with rows and a chunk size of at least
    one. *)
Theorem nonpositive_chunk_size_raises :
  (∀ df chunk_size,
     (chunk_creation_loop df chunk_size = Raise (KeyError "audio_id")
        ↔ df = []) ∧
     (chunk_creation_loop df chunk_size = Raise CastError
        ↔ df ≠ [] ∧ (chunk_size ≤ 0)%Z) ∧
     ((∃ plan, chunk_creation_loop df chunk_size = Ok plan)
        ↔ df ≠ [] ∧ (1 ≤ chunk_size)%Z)) ∧
  (∀ df chunk_size (i : nat),
     df ≠ [] → (chunk_size ≤ 0)%Z →
     loop_state_after df chunk_size 0 = Ok loop_init ∧
     loop_state_after df chunk_size (S i) = Raise CastError) ∧
  partition_plan unsorted_walk 0 = Raise CastError ∧
  partition_plan unsorted_walk (-3) = Raise CastError.
Proof.
  split; [|split; [|by vm_compute]].
  - intros df chunk_size. rewrite chunk_creation_loop_eq.
    destruct df as [|r df].
    + split; [done|]. split; [split; [done|by intros [? _]]|].
      split; [by intros [? ?]|by intros [? _]].
    + destruct (decide (1 ≤ chunk_size)%Z) as [Hpos|Hneg].
      * split; [done|]. split; [split; [done|intros [_ ?]; lia]|].
        split; [done|eauto].
      * split; [done|]. split; [split; [intros _; split; [done|lia]|done]|].
        split; [by intros [? ?]|by intros [_ ?]].
  - intros df chunk_size i Hdf Hcs. unfold loop_state_after.
    rewrite groupby_audio_id_eq. destruct df as [|r df]; [done|].
    cbn [mbind result_bind]. split; [by rewrite take_0|].
    pose proof (groups_of_nonempty r df) as HG.
    destruct (groups_of (r :: df)) as [|g G]; [done|].
    cbn [take]. by apply for_each_loop_body_nonpositive.
Qed.

End loop_states.

(** ** The dictionary of chunks *)

Section dictionary.

Implicit Types (df : DataFrame) (l : list (string * Dataset)).

Lemma dataset_dict_snoc l (p : string * Dataset) :
  dataset_dict (l ++ [p]) = <[p.1 := p.2]> (dataset_dict l).
Proof. unfold dataset_dict. by rewrite foldl_app. Qed.

Lemma dataset_dict_lookup_None l (k : string) :
  k ∉ l.*1 → dataset_dict l !! k = None.
Proof.
  induction l as [|p l IH] using rev_ind; intros Hk; [done|].
  rewrite fmap_app, elem_of_app in Hk.
  rewrite dataset_dict_snoc, lookup_insert_ne.
  - apply IH. intros Hin. apply Hk. by left.
  - intros Heq. apply Hk. right. rewrite <- Heq. left.
Qed.

(** Under distinct names the dictionary holds each pair of the list, and
    nothing else. *)
Lemma dataset_dict_distinct l :
  NoDup l.*1 →
  (∀ i p, l !! i = Some p → dataset_dict l !! p.1 = Some p.2) ∧
  size (dataset_dict l) = length l.
Proof.
  induction l as [|p l IH] using rev_ind; intros Hnd.
  { split; [by intros i p Hp; rewrite lookup_nil in Hp|done]. }
  rewrite fmap_app in Hnd. apply NoDup_app in Hnd as (Hnd & Hdisj & _).
  destruct (IH Hnd) as [IHl IHs].
  assert (p.1 ∉ l.*1) as Hfresh.
  { intros Hin. apply (Hdisj _ Hin). left. }
  rewrite dataset_dict_snoc. split.
  - intros i q Hq. apply lookup_app_Some in Hq as [Hq|[_ Hq]].
    + rewrite lookup_insert_ne; [by eapply IHl|].
      intros Heq. apply Hfresh. rewrite Heq.
      apply list_elem_of_fmap_2, list_elem_of_lookup. eauto.
    + apply list_lookup_singleton_Some in Hq as [_ <-].
      by rewrite lookup_insert_eq.
  - rewrite map_size_insert_None by by apply dataset_dict_lookup_None.
    rewrite length_app, IHs. cbn. lia.
Qed.

(** The [DatasetDict] built from the plan loses no chunk: it has as many
    entries as the plan has chunks, and the entry [partition<i>] is the
    chunk of index [i]. *)
Theorem dataset_dict_holds_every_chunk df chunk_size :
  match chunk_creation_loop df chunk_size with
  | Ok plan =>
      size (dataset_dict plan) = length plan ∧
      ∀ i, dataset_dict plan !! chunk_name i = snd <$> plan !! i
  | Raise e => loop_raises df chunk_size e
  end.
Proof.
  destruct (chunk_creation_loop df chunk_size) as [plan|e] eqn:Hloop;
    [|by apply chunk_creation_loop_raise in Hloop].
  apply chunk_creation_loop_Ok in Hloop as (_ & _ & ->).
  set (chunks := group_chunks (group_run chunk_size (groups_of df))).
  assert (NoDup (plan_of chunks).*1) as Hnd.
  { rewrite plan_of_names.
    apply NoDup_fmap_2; [apply chunk_name_inj | apply NoDup_seq]. }
  destruct (dataset_dict_distinct _ Hnd) as [Hlookup Hsize].
  split; [done|]. intros i.
  destruct (plan_of chunks !! i) as [p|] eqn:Hp.
  - pose proof Hp as (c & _ & ->)%plan_of_lookup.
    apply (Hlookup i (chunk_name i, rows_of c) Hp).
  - apply dataset_dict_lookup_None. rewrite plan_of_names.
    intros (j & Hij & Hj)%list_elem_of_fmap.
    apply chunk_name_inj in Hij as <-. apply elem_of_seq in Hj.
    apply lookup_ge_None in Hp. unfold plan_of in Hp.
    rewrite length_imap in Hp. lia.
Qed.

(** The notebook fails with [KeyError] on the column [audio_id], both where
    it counts the ids and where it groups, exactly when the scan retains
    no file: when every [.flac] file of the scan lies in an excluded
    directory, as on a scan without any [.flac] file. *)
Theorem key_error_iff_nothing_retained walk chunk_size :
  (unique_audio_ids (create_df walk) = Raise (KeyError "audio_id")
     ↔ Forall (λ item, excluded (audio_id_of item)) (flac_files walk)) ∧
  (partition_plan walk chunk_size = Raise (KeyError "audio_id")
     ↔ Forall (λ item, excluded (audio_id_of item)) (flac_files walk)).
Proof.
  assert (create_df walk = []
          ↔ Forall (λ item, excluded (audio_id_of item)) (flac_files walk)) as <-.
  { rewrite create_df_items. split.
    - intros Hnil%fmap_nil_inv. apply filter_none in Hnil.
      eapply Forall_impl; [exact Hnil|]. intros item Hitem.
      by destruct (decide (excluded (audio_id_of item))).
    - intros Hall. rewrite (proj1 (filter_none _ _)); [done|].
      eapply Forall_impl; [exact Hall|]. intros item Hitem Hn. by apply Hn. }
  unfold partition_plan. rewrite chunk_creation_loop_eq.
  unfold unique_audio_ids, column_audio_id.
  destruct (create_df walk) as [|r df]; [done|].
  cbn [mbind result_bind]. destruct (decide (1 ≤ chunk_size)%Z);
    split; (split; [done|intros [=]]).
Qed.

End dictionary.

(** ** Strings and paths *)

Section name_shapes.

(** The rows of the frame by the shape of the names: a record is a row of
    the frame of [create_df] exactly when it is the record of a file of
    the scan whose name is a stem followed by [.flac], whose group id, the
    name of the directory of its path, is not [SSB] followed by anything,
    and whose label is the first three characters of the name when the
    name is [F0] followed by anything, and [R] for every other name. *)
Theorem create_df_rows_by_shape walk (r : Row) :
  r ∈ create_df walk ↔
  ∃ root files stem,
    (root, files) ∈ walk ∧ stem +:+ ".flac" ∈ files ∧
    audio r = PosixPath.join root (stem +:+ ".flac") ∧
    audio_id r = PosixPath.basename (PosixPath.dirname (audio r)) ∧
    (∀ rest, audio_id r ≠ "SSB" +:+ rest) ∧
    (((∃ rest, stem +:+ ".flac" = "F0" +:+ rest) ∧
      real_or_fake r = Py.chars_to (stem +:+ ".flac") 3) ∨
     ((∀ rest, stem +:+ ".flac" ≠ "F0" +:+ rest) ∧ real_or_fake r = "R")).
Proof.
  rewrite create_df_items, list_elem_of_fmap. split.
  - intros ([root file] & -> & [Hex Hitem]%list_elem_of_filter).
    apply flac_files_elem_of in Hitem as ([stem ->]%endswith_iff & files & Hwalk & Hfile).
    exists root, files, stem. cbn [audio audio_id real_or_fake row_of_item fst snd].
    split; [done|]. split; [done|]. split; [done|]. split; [done|]. split.
    + intros rest Hrest. apply Hex. apply startswith_iff. by exists rest.
    + unfold label_of_file_name.
      destruct (Py.startswith (stem +:+ ".flac") "F0") eqn:Hfake.
      * left. by apply startswith_iff in Hfake.
      * right. split; [|done]. intros rest Hrest.
        assert (Py.startswith (stem +:+ ".flac") "F0" = true) as Ht
          by (apply startswith_iff; by exists rest).
        by rewrite Ht in Hfake.
  - intros (root & files & stem & Hwalk & Hfile & Haudio & Hid & Hex & Hlabel).
    exists (root, stem +:+ ".flac"). split.
    + destruct r as [a i l]. cbn [audio audio_id real_or_fake] in *.
      unfold row_of_item, audio_id_of. cbn [fst snd]. subst a i. f_equal.
      unfold label_of_file_name.
      destruct Hlabel as [[Hshape ->]|[Hshape ->]].
      * apply startswith_iff in Hshape. by rewrite Hshape.
      * destruct (Py.startswith (stem +:+ ".flac") "F0") eqn:Hfake; [|done].
        apply startswith_iff in Hfake as [rest Hrest]. by destruct (Hshape rest).
    + apply list_elem_of_filter. split.
      * intros [rest Hrest]%startswith_iff. apply (Hex rest).
        by rewrite Hid, Haudio.
      * apply flac_files_elem_of. split; [|eauto].
        apply endswith_iff. by exists stem.
Qed.

End name_shapes.

(** ** The group id of a file *)

Section directory_name.

Implicit Types (s t a b r file : string) (c : Ascii.ascii).

Lemma sep_string : "/" = String Py.sep "".
Proof. done. Qed.

Lemma after_last_sep_app a b :
  Py.after_last_sep (a +:+ b) =
    match Py.after_last_sep b with
    | S i => String.length a + S i
    | O => Py.after_last_sep a
    end.
Proof.
  induction a as [|c a IH].
  { change ("" +:+ b) with b. by destruct (Py.after_last_sep b). }
  rewrite string_app_cons. cbn [Py.after_last_sep String.length]. rewrite IH.
  destruct (Py.after_last_sep b); [done|].
  rewrite Nat.add_succ_r. cbn [Nat.add]. lia.
Qed.

Lemma after_last_sep_no_sep s : has_sep s = false → Py.after_last_sep s = 0.
Proof.
  induction s as [|c s IH]; [done|]. cbn [has_sep Py.after_last_sep].
  intros [Hc Hs]%orb_false_iff. by rewrite IH, Hc.
Qed.

Lemma startswith_sep_no_sep s : has_sep s = false → Py.startswith s "/" = false.
Proof.
  destruct s as [|c s]; [done|]. cbn [has_sep]. intros [Hc _]%orb_false_iff.
  unfold Py.startswith. rewrite sep_string. cbn [String.prefix].
  destruct (Ascii.ascii_dec Py.sep c) as [<-|]; [|done].
  by rewrite Ascii.eqb_refl in Hc.
Qed.

Lemma lstrip_sep_stops r c t : c ≠ Py.sep → Py.lstrip_sep (r +:+ String c t) ≠ "".
Proof.
  intros Hc. induction r as [|a r IH].
  - change ("" +:+ String c t) with (String c t). cbn [Py.lstrip_sep].
    by destruct (Ascii.eqb_spec c Py.sep).
  - rewrite string_app_cons. cbn [Py.lstrip_sep].
    by destruct (Ascii.eqb a Py.sep).
Qed.

Lemma rev_app_app s t a :
  String.rev_app (s +:+ t) a = String.rev_app t (String.rev_app s a).
Proof.
  revert a. induction s as [|c s IH]; intros a; [done|].
  rewrite string_app_cons. cbn [String.rev_app]. apply IH.
Qed.

Lemma rev_app_rev_app s a b :
  String.rev_app (String.rev_app s a) b = String.rev_app a (s +:+ b).
Proof.
  revert a. induction s as [|c s IH]; intros a; [done|].
  cbn [String.rev_app]. by rewrite IH, string_app_cons.
Qed.

(** Stripping the separators that follow a character other than the
    separator gives back the string up to that character. *)
Lemma rstrip_sep_snoc r c :
  c ≠ Py.sep → Py.rstrip_sep (snoc_char r c +:+ "/") = snoc_char r c.
Proof.
  intros Hc. unfold Py.rstrip_sep, String.rev, snoc_char.
  rewrite !rev_app_app, sep_string. cbn [String.rev_app Py.lstrip_sep].
  rewrite Ascii.eqb_refl.
  destruct (Ascii.eqb_spec c Py.sep) as [|_]; [done|].
  cbn [String.rev_app]. rewrite rev_app_rev_app. done.
Qed.

Lemma endswith_sep_snoc r c : c ≠ Py.sep → Py.endswith (snoc_char r c) "/" = false.
Proof.
  intros Hc. apply not_true_iff_false. intros [pre Hpre]%endswith_iff.
  unfold snoc_char in Hpre.
  apply (f_equal String.rev) in Hpre. unfold String.rev in Hpre.
  rewrite !rev_app_app, sep_string in Hpre. cbn [String.rev_app] in Hpre.
  by injection Hpre.
Qed.

(** A file that lies in a directory [root] whose path does not end with
    the separator gets the path [root/file], and its group id is the name
    of that directory, the last component of [root]. *)
Theorem audio_id_is_directory_name r c file :
  c ≠ Py.sep → has_sep file = false →
  PosixPath.join (snoc_char r c) file = snoc_char r c +:+ "/" +:+ file ∧
  audio_id_of (snoc_char r c, file) = PosixPath.basename (snoc_char r c).
Proof.
  intros Hc Hfile.
  assert (PosixPath.join (snoc_char r c) file = snoc_char r c +:+ "/" +:+ file)
    as Hjoin.
  { unfold PosixPath.join.
    rewrite startswith_sep_no_sep, endswith_sep_snoc by done.
    assert (String.eqb (snoc_char r c) "" = false) as ->; [|done].
    apply String.eqb_neq. unfold snoc_char. by destruct r. }
  split; [done|]. unfold audio_id_of. cbn [fst snd]. rewrite Hjoin. f_equal.
  unfold PosixPath.dirname.
  assert (Py.after_last_sep (snoc_char r c +:+ "/" +:+ file)
          = String.length (snoc_char r c) + 1) as ->.
  { rewrite after_last_sep_app, sep_string, string_app_cons.
    cbn [Py.after_last_sep].
    change ("" +:+ file) with file.
    by rewrite after_last_sep_no_sep, Ascii.eqb_refl. }
  unfold Py.slice_to. rewrite substring_app_l, sep_string, string_app_cons.
  cbn [String.substring]. rewrite substring_0_0.
  assert (String.eqb (Py.lstrip_sep (snoc_char r c +:+ String Py.sep "")) ""
          = false) as ->.
  { apply String.eqb_neq. unfold snoc_char.
    rewrite string_app_assoc, string_app_cons. by apply lstrip_sep_stops. }
  rewrite <- sep_string. by apply rstrip_sep_snoc.
Qed.

Lemma audio_id_is_directory_name_witness :
  PosixPath.join "data/p225" "a.flac" = "data/p225" +:+ "/" +:+ "a.flac" ∧
  audio_id_of ("data/p225", "a.flac") = PosixPath.basename "data/p225".
Proof.
  apply (audio_id_is_directory_name "data/p22" (Ascii.ascii_of_nat 53) "a.flac");
    [by vm_compute | by vm_compute].
Defined.

End directory_name.

(** ** The scan as a whole *)

Section scan_whole.

Implicit Types (walk : Walk).

(** Every [.flac] file of the scan is accounted for once, in scan order:
    the frame holds the records of the files that are not excluded, the
    output holds one [Skipping] line for each excluded file, also when
    several files share the excluded id, and the two together are as many
    as the [.flac] files. *)
Theorem create_df_accounts_for_every_flac_file walk :
  create_df walk =
    row_of_item <$> filter (λ i, ¬ excluded (audio_id_of i)) (flac_files walk) ∧
  printed (create_df_run walk) =
    skip_line <$> filter (λ i, excluded (audio_id_of i)) (flac_files walk) ∧
  length (create_df walk) + length (printed (create_df_run walk)) =
    length (flac_files walk).
Proof.
  split; [apply create_df_items|]. split; [apply create_df_printed|].
  rewrite create_df_items, create_df_printed, !length_fmap.
  rewrite <- (Permutation_length
                (filter_app_complement (λ i, excluded (audio_id_of i))
                   (flac_files walk))).
  rewrite length_app. lia.
Qed.

(** Scanning one sequence of directories after another appends the frames
    and the outputs: what a directory contributes does not depend on the
    directories scanned before it. *)
Theorem create_df_app walk1 walk2 :
  create_df (walk1 ++ walk2) = create_df walk1 ++ create_df walk2 ∧
  printed (create_df_run (walk1 ++ walk2)) =
    printed (create_df_run walk1) ++ printed (create_df_run walk2).
Proof.
  rewrite !create_df_items, !create_df_printed. unfold flac_files.
  by rewrite bind_app, !filter_app, !fmap_app.
Qed.

End scan_whole.

(** ** Key ranges of the chunks *)

Section key_ranges.

Implicit Types (df : DataFrame) (c : list Group).

Lemma rows_of_sorted c :
  Forall well_grouped c → StronglySorted String.le c.*1 →
  StronglySorted (λ r1 r2, String.le (audio_id r1) (audio_id r2)) (rows_of c).
Proof.
  induction c as [|g c IH]; intros Hwg Hs; [constructor|].
  apply Forall_cons in Hwg as [[_ Hg] Hwg].
  rewrite fmap_cons in Hs. apply StronglySorted_cons in Hs as [Hle Hs].
  rewrite Forall_forall in Hg. rewrite Forall_forall in Hle.
  rewrite rows_of_cons. apply StronglySorted_app_2; [| |by apply IH].
  - intros r1 r2 Hr1 Hr2. rewrite (Hg r1 Hr1). apply Hle.
    apply (elem_of_list_to_set (C:=gset string)).
    rewrite <- chunk_ids_rows_of by done. unfold chunk_ids.
    by apply elem_of_list_to_set, list_elem_of_fmap_2.
  - clear Hle. induction (g.2) as [|r rs IHrs]; [constructor|].
    constructor.
    + apply IHrs. intros r' Hr'. apply Hg. by right.
    + apply Forall_forall. intros r' Hr'.
      rewrite (Hg r) by left. rewrite (Hg r') by (by right). done.
Qed.

(** Read chunk after chunk, the rows of the plan are in ascending order of
    their group ids: every chunk holds a range of the sorted ids, and the
    ids of a chunk are below those of the chunks that follow it. *)
Theorem plan_rows_ascending df chunk_size :
  match chunk_creation_loop df chunk_size with
  | Ok plan =>
      StronglySorted (λ r1 r2, String.le (audio_id r1) (audio_id r2))
        (mjoin plan.*2)
  | Raise e => loop_raises df chunk_size e
  end.
Proof.
  destruct (chunk_creation_loop df chunk_size) as [plan|e] eqn:Hloop;
    [|by apply chunk_creation_loop_raise in Hloop].
  rewrite (plan_rows _ _ _ Hloop). apply rows_of_sorted.
  - apply groups_of_well_grouped.
  - rewrite groups_of_keys. apply sorted_ids_sorted.
Qed.

End key_ranges.
